(** * Bundle.js: the batch read / staleness / queue / refresh pipeline

    A shallow embedding of [src/app/routes/games/Bundle.js] (the static
    methods [Bundle.get] and [Bundle.fetch]) together with the part of the
    relational store and of the JavaScript runtime they rely on. *)

From Stdlib Require Import ZArith Ascii String List Lia Bool.
From stdpp Require Import base option list gmap strings.

Local Open Scope string_scope.
Local Open Scope list_scope.
Local Open Scope Z_scope.

(** ** JavaScript strings: join, split, number printing, parseInt *)

Module JsString.

(** [Array.prototype.join(sep)]. *)
Fixpoint join (sep : string) (l : list string) : string :=
  match l with
  | [] => ""
  | [x] => x
  | x :: rest => x +:+ sep +:+ join sep rest
  end.

(** [String.prototype.split(c)] for a one-character separator: the
    result always has at least one piece. *)
Fixpoint split (c : ascii) (s : string) : list string :=
  match s with
  | EmptyString => [""]
  | String a s' =>
      if Ascii.eqb a c then "" :: split c s'
      else match split c s' with
           | [] => [String a ""]
           | p :: ps => String a p :: ps
           end
  end.

(** [Array.prototype.includes] on an array of strings. *)
Definition includes (l : list string) (x : string) : bool :=
  existsb (String.eqb x) l.

Definition digit_char (d : Z) : ascii :=
  ascii_of_nat (48 + Z.to_nat d).

(** Decimal digits of a non-negative integer, most significant first;
    [fuel] bounds the number of digits. *)
Fixpoint digits_of (fuel : nat) (z : Z) (acc : string) : string :=
  match fuel with
  | O => acc
  | S fuel' =>
      let acc' := String (digit_char (z mod 10)) acc in
      if z <? 10 then acc' else digits_of fuel' (z / 10) acc'
  end.

(** Number-to-string conversion of an integer, as done by a template
    literal and by [connection.escape] on a number. *)
Definition of_Z (z : Z) : string :=
  if z <? 0 then String "-" (digits_of (S (Z.to_nat (Z.log2 (- z)))) (- z) "")
  else digits_of (S (Z.to_nat (Z.log2 z))) z "".

Definition is_space (a : ascii) : bool :=
  let n := nat_of_ascii a in
  ((9 <=? n) && (n <=? 13))%nat || (n =? 32)%nat.

Definition digit_val (a : ascii) : option Z :=
  let n := Z.of_nat (nat_of_ascii a) in
  if (48 <=? n) && (n <=? 57) then Some (n - 48)
  else if (97 <=? n) && (n <=? 122) then Some (n - 87)
  else if (65 <=? n) && (n <=? 90) then Some (n - 55)
  else None.

Fixpoint skip_space (s : string) : string :=
  match s with
  | String a s' => if is_space a then skip_space s' else s
  | EmptyString => s
  end.

(** Longest prefix of digits below [radix], accumulated most
    significant first; [None] when the prefix is empty. *)
Fixpoint parse_digits (radix : Z) (s : string) (acc : option Z) : option Z :=
  match s with
  | String a s' =>
      match digit_val a with
      | Some d =>
          if d <? radix
          then parse_digits radix s' (Some (default 0 acc * radix + d))
          else acc
      | None => acc
      end
  | EmptyString => acc
  end.

(** A leading [0x] or [0X] selects radix 16, otherwise the radix is 10. *)
Definition parse_unsigned (s : string) : option Z :=
  match s with
  | String a (String b s') =>
      if Ascii.eqb a "0" && (Ascii.eqb b "x" || Ascii.eqb b "X")
      then parse_digits 16 s' None
      else parse_digits 10 s None
  | _ => parse_digits 10 s None
  end.

(** [parseInt(s)] with no radix argument; [None] stands for [NaN]. *)
Definition parseInt (s : string) : option Z :=
  match skip_space s with
  | String a s' =>
      if Ascii.eqb a "-" then Z.opp <$> parse_unsigned s'
      else if Ascii.eqb a "+" then parse_unsigned s'
      else parse_unsigned (String a s')
  | EmptyString => None
  end.

Definition is_digit (a : ascii) : bool :=
  let n := Z.of_nat (nat_of_ascii a) in (48 <=? n) && (n <=? 57).

Definition not_comma (a : ascii) : bool := negb (Ascii.eqb a ",").

(** Every character of the string satisfies [p]. *)
Fixpoint all_chars (p : ascii → bool) (s : string) : bool :=
  match s with
  | EmptyString => true
  | String a s' => p a && all_chars p s'
  end.

End JsString.

(** ** Regular expressions, matched by derivatives *)

Module Regex.

Inductive regex : Type :=
| Void
| Eps
| Chr (a : ascii)
| Dot            (* [.]: any character but a line terminator *)
| AnyChar        (* any character at all *)
| Alt (r1 r2 : regex)
| Cat (r1 r2 : regex)
| Star (r : regex).

Fixpoint lit (s : string) : regex :=
  match s with
  | EmptyString => Eps
  | String a s' => Cat (Chr a) (lit s')
  end.

Definition Plus (r : regex) : regex := Cat r (Star r).
Definition Opt (r : regex) : regex := Alt r Eps.

Fixpoint alts (l : list regex) : regex :=
  match l with
  | [] => Void
  | [r] => r
  | r :: rest => Alt r (alts rest)
  end.

Fixpoint nullable (r : regex) : bool :=
  match r with
  | Void | Chr _ | Dot | AnyChar => false
  | Eps | Star _ => true
  | Alt r1 r2 => nullable r1 || nullable r2
  | Cat r1 r2 => nullable r1 && nullable r2
  end.

Definition line_terminator (a : ascii) : bool :=
  Ascii.eqb a "010" || Ascii.eqb a "013".

Definition cat (r1 r2 : regex) : regex :=
  match r1 with
  | Void => Void
  | Eps => r2
  | _ => Cat r1 r2
  end.

Definition alt (r1 r2 : regex) : regex :=
  match r1, r2 with
  | Void, _ => r2
  | _, Void => r1
  | _, _ => Alt r1 r2
  end.

Fixpoint deriv (a : ascii) (r : regex) : regex :=
  match r with
  | Void | Eps => Void
  | Chr b => if Ascii.eqb a b then Eps else Void
  | Dot => if line_terminator a then Void else Eps
  | AnyChar => Eps
  | Alt r1 r2 => alt (deriv a r1) (deriv a r2)
  | Cat r1 r2 =>
      if nullable r1
      then alt (cat (deriv a r1) r2) (deriv a r2)
      else cat (deriv a r1) r2
  | Star r1 => cat (deriv a r1) (Star r1)
  end.

(** Whole-string match: the pattern is anchored with [^] and [$]. *)
Fixpoint full_match (r : regex) (s : string) : bool :=
  match s with
  | EmptyString => nullable r
  | String a s' => full_match (deriv a r) s'
  end.

(** Unanchored match, as [RegExp.prototype.test] and
    [String.prototype.match] do for a pattern without anchors. *)
Definition search (r : regex) (s : string) : bool :=
  full_match (Cat (Star AnyChar) (Cat r (Star AnyChar))) s.

End Regex.


(** ** The relational store *)

(** A row of [games__bundle], keyed by [bundle_id]. *)
Record bundle_record : Type := BundleRecord {
  removed : bool;
  last_update : Z;            (* epoch seconds *)
  queued_for_update : bool
}.

(** The three persisted tables: [games__bundle] keyed by identifier,
    [games__bundle_name] keyed by identifier, [games__bundle_app] keyed by
    the (identifier, related identifier) pair. *)
Record tables : Type := Tables {
  games__bundle : gmap Z bundle_record;
  games__bundle_name : gmap Z string;
  games__bundle_app : gset (Z * Z)
}.

(** A row object returned by the primary SELECT of [get]; a column that
    was not selected is [undefined] ([None]). *)
Record bundle_row : Type := BundleRow {
  row_bundle_id : Z;
  row_name : option string;
  row_removed : option bool;
  row_last_update : Z;
  row_queued_for_update : bool
}.

(** A row of the grouped app query: [bundle_id] and the GROUP_CONCAT
    string [apps]. *)
Record app_row : Type := AppRow {
  app_row_bundle_id : Z;
  app_row_apps : string
}.

(** The statements that [get] and [fetch] send to the store. *)
Inductive statement : Type :=
| BEGIN
| COMMIT
| ROLLBACK
| SELECT_bundle (columns : list string) (join_name : bool) (ids : list Z)
| SELECT_bundle_app (ids : list Z)
| INSERT_bundle_queue (ids : list Z)
| INSERT_bundle (bundle_id : Z) (rec : bundle_record)
| INSERT_IGNORE_bundle_name (bundle_id : Z) (name : string)
| INSERT_IGNORE_bundle_app (bundle_id : Z) (apps : list (option Z)).

Inductive result_set : Type :=
| BundleRows (rows : list bundle_row)
| AppRows (rows : list app_row)
| OkPacket.

Definition bundle_rows (r : result_set) : list bundle_row :=
  match r with BundleRows rows => rows | _ => [] end.

Definition app_rows (r : result_set) : list app_row :=
  match r with AppRows rows => rows | _ => [] end.

(** [CustomError.COMMON_MESSAGES.steam] is a constant of the repository
    whose text is not part of these sources; it is kept symbolic. *)
Inductive message : Type :=
| COMMON_MESSAGES_steam
| Text (s : string).

Inductive error : Type :=
| CustomError (msg : message) (status : Z)
| ValidationError (msg : string)
| StoreError (s : statement).

(** The connection: the committed tables, the working copy of the open
    transaction if there is one, the statements sent so far, and the
    outcome (true = failure) of the coming store operations. *)
Record connection : Type := Connection {
  committed : tables;
  txn : option tables;
  log : list statement;
  faults : list bool
}.

Definition visible (c : connection) : tables :=
  match txn c with Some w => w | None => committed c end.

Definition set_visible (c : connection) (t : tables) : connection :=
  match txn c with
  | Some _ => Connection (committed c) (Some t) (log c) (faults c)
  | None => Connection t None (log c) (faults c)
  end.

Definition record (s : statement) (c : connection) : connection :=
  Connection (committed c) (txn c) (log c ++ [s]) (faults c).

Definition next_fault (c : connection) : bool * connection :=
  match faults c with
  | [] => (false, c)
  | b :: fs => (b, Connection (committed c) (txn c) (log c) fs)
  end.

(** ** Asynchronous code as a state and error monad over the connection *)

Definition M (A : Type) : Type := connection → (error + A) * connection.

#[export] Instance M_ret : MRet M := λ A (x : A) c, (inr x, c).

#[export] Instance M_bind : MBind M := λ A B (f : A → M B) (m : M A) c,
  match m c with
  | (inl e, c') => (inl e, c')
  | (inr x, c') => f x c'
  end.

Definition throw {A} (e : error) : M A := λ c, (inl e, c).

Definition try_catch {A} (body : M A) (handler : error → M A) : M A := λ c,
  match body c with
  | (inl e, c') => handler e c'
  | ok => ok
  end.

(** ** JavaScript values and objects used as maps *)

(** Truthiness of a string: every string but the empty one. *)
Definition truthy (s : string) : bool := negb (String.eqb s "").

(** Truthiness of a string that may be [null]. *)
Definition truthy_opt (s : option string) : bool :=
  match s with Some s => truthy s | None => false end.

(** Truthiness of an optional boolean column ([undefined] is falsy). *)
Definition truthy_flag (b : option bool) : bool := default false b.

(** [a || b] on a possibly missing string. *)
Definition or_else (a : option string) (b : string) : string :=
  match a with
  | Some s => if truthy s then s else b
  | None => b
  end.

(** An object literal with string keys, in insertion order. *)
Definition object (V : Type) : Type := list (string * V).

Definition obj_delete {V} (k : string) (o : object V) : object V :=
  List.filter (λ kv, negb (String.eqb kv.1 k)) o.

Definition obj_get {V} (k : string) (o : object V) : option V :=
  snd <$> List.find (λ kv, String.eqb kv.1 k) o.

Definition obj_keys {V} (o : object V) : list string := o.*1.
Definition obj_values {V} (o : object V) : list V := o.*2.

(** [Array.prototype.includes] on an array of numbers. *)
Definition includes_id (l : list Z) (x : Z) : bool := existsb (Z.eqb x) l.

(** The [req] argument of [get]: only [req.query.filters] and
    [req.query.bundle_filters] are read. *)
Record request : Type := Request {
  query_filters : option string;
  query_bundle_filters : option string
}.

(** The parsed page returned by [Request.get]: [html] is the document
    (absent when the request produced no content), [url] the final
    resolved URL. Of the document only what [fetch] reads is kept: the
    text of the first [.pageheader] element, if there is one, and the
    [data-ds-appid] attribute of every element that has it, in document
    order. *)
Record document : Type := Document {
  pageheader : option string;
  ds_appids : list string
}.

Record response : Type := Response {
  html : option document;
  url : string
}.

(** The [validator.filters] entry built by [get]. *)
Record validator : Type := Validator {
  validator_message : string;
  validator_regex : Regex.regex
}.

(** The projection object [bundle] built by [get]; an optional field that
    was not assigned is [None]. *)
Module Projection.
Record t : Type := Make {
  bundle_id : Z;
  name : option (option string);
  removed : option bool;
  apps : option (list (option Z));
  last_update : string;
  queued_for_update : bool
}.
End Projection.

Section Model.

(** Column defaults of [games__bundle], taken when [get] inserts a bare
    row; the table declaration is not part of these sources. *)
Variable default_removed : bool.
Variable default_last_update : Z.

(** [Utils.formatDate], not part of these sources. *)
Variable formatDate : Z → bool → string.

(** *** Semantics of the statements *)

Definition select_row (columns : list string) (join_name : bool)
    (names : gmap Z string) (ids : list Z)
    (entry : Z * bundle_record) : option bundle_row :=
  let '(id, r) := entry in
  if includes_id ids id then
    let row nm :=
      BundleRow id
        (if JsString.includes columns "g_bn.name" then nm else None)
        (if JsString.includes columns "g_b.removed" then Some (removed r) else None)
        (last_update r) (queued_for_update r) in
    if join_name then
      match names !! id with
      | Some n => Some (row (Some n))
      | None => None
      end
    else Some (row None)
  else None.

Definition app_ids_of (t : gset (Z * Z)) (id : Z) : list Z :=
  (List.filter (λ p, Z.eqb p.1 id) (elements t)).*2.

Definition GROUP_CONCAT (l : list Z) : string :=
  JsString.join "," (JsString.of_Z <$> l).

Definition select_apps (t : gset (Z * Z)) (ids : list Z) : list app_row :=
  let groups :=
    remove_dups (List.filter (includes_id ids) ((elements t).*1)) in
  (λ id, AppRow id (GROUP_CONCAT (app_ids_of t id))) <$> groups.

Definition queue_upsert (m : gmap Z bundle_record) (id : Z)
    : gmap Z bundle_record :=
  match m !! id with
  | Some r => <[id := BundleRecord (removed r) (last_update r) true]> m
  | None => <[id := BundleRecord default_removed default_last_update true]> m
  end.

Definition insert_ignore_name (m : gmap Z string) (id : Z) (n : string)
    : gmap Z string :=
  match m !! id with
  | Some _ => m
  | None => <[id := n]> m
  end.

Definition is_nan (v : option Z) : bool :=
  match v with None => true | Some _ => false end.

(** What a statement does to the tables and what it returns; [None] is
    an error raised by the store (an empty [IN ()] or [VALUES] list, a
    column of a table that was not joined, a [NaN] literal). *)
Definition run (s : statement) (t : tables) : option (tables * result_set) :=
  match s with
  | BEGIN | COMMIT | ROLLBACK => Some (t, OkPacket)
  | SELECT_bundle columns join_name ids =>
      match ids with
      | [] => None
      | _ =>
          if JsString.includes columns "g_bn.name" && negb join_name then None
          else Some (t, BundleRows
                 (omap (select_row columns join_name (games__bundle_name t) ids)
                       (map_to_list (games__bundle t))))
      end
  | SELECT_bundle_app ids =>
      match ids with
      | [] => None
      | _ => Some (t, AppRows (select_apps (games__bundle_app t) ids))
      end
  | INSERT_bundle_queue ids =>
      match ids with
      | [] => None
      | _ => Some (Tables (foldl queue_upsert (games__bundle t) ids)
                          (games__bundle_name t) (games__bundle_app t),
                   OkPacket)
      end
  | INSERT_bundle id r =>
      Some (Tables (<[id := r]> (games__bundle t))
                   (games__bundle_name t) (games__bundle_app t),
            OkPacket)
  | INSERT_IGNORE_bundle_name id n =>
      Some (Tables (games__bundle t)
                   (insert_ignore_name (games__bundle_name t) id n)
                   (games__bundle_app t),
            OkPacket)
  | INSERT_IGNORE_bundle_app bid apps =>
      match apps with
      | [] => None
      | _ =>
          if existsb is_nan apps then None
          else Some (Tables (games__bundle t) (games__bundle_name t)
                       (list_to_set ((λ a, (bid, a)) <$> omap id apps)
                          ∪ games__bundle_app t),
                     OkPacket)
      end
  end.

(** *** The connection pool *)

(** Modelled from the spec: [Pool.query] of class/Connection is not part
    of these sources. It sends one statement on the connection, inside
    the open transaction if there is one; a store-level error is
    propagated unchanged and leaves the tables as they were. *)
Definition Pool_query (s : statement) : M result_set := λ c,
  let '(fault, c1) := next_fault c in
  let c2 := record s c1 in
  if fault then (inl (StoreError s), c2)
  else match run s (visible c2) with
       | Some (t', rs) => (inr rs, set_visible c2 t')
       | None => (inl (StoreError s), c2)
       end.

(** Modelled from the spec: [Pool.beginTransaction] is not part of these
    sources. It opens a transaction on the connection (committing one
    that was left open, as the store does). *)
Definition Pool_beginTransaction : M unit := λ c,
  let '(fault, c1) := next_fault c in
  let c2 := record BEGIN c1 in
  if fault then (inl (StoreError BEGIN), c2)
  else (inr tt, Connection (visible c2) (Some (visible c2)) (log c2) (faults c2)).

(** Modelled from the spec: [Pool.commit] is not part of these sources.
    It makes the writes of the open transaction permanent. *)
Definition Pool_commit : M unit := λ c,
  let '(fault, c1) := next_fault c in
  let c2 := record COMMIT c1 in
  if fault then (inl (StoreError COMMIT), c2)
  else (inr tt, Connection (visible c2) None (log c2) (faults c2)).

(** Modelled from the spec: [Pool.rollback] is not part of these
    sources. It discards the writes of the open transaction. *)
Definition Pool_rollback : M unit := λ c,
  (inr tt, Connection (committed c) None (log c ++ [ROLLBACK]) (faults c)).

(** Modelled from the spec: [Pool.transaction] is not part of these
    sources. It runs the callback in a transaction scope of its own:
    commit when the callback returns, rollback and re-raise when it
    throws. *)
Definition Pool_transaction {A} (callback : M A) : M A :=
  _ ← Pool_beginTransaction;
  try_catch
    (x ← callback; _ ← Pool_commit; mret x)
    (λ err, _ ← Pool_rollback; throw err).

(** *** Helpers of class/Utils *)

(** Modelled from the spec: [Utils.validateParams] is not part of these
    sources. A parameter that does not match the pattern of its
    validator fails with the validator's message. *)
Definition validateParams (filters : string) (v : validator) : M unit :=
  if Regex.full_match (validator_regex v) filters then mret tt
  else throw (ValidationError (validator_message v)).

(** Modelled from the spec: [Utils.isSet] is not part of these sources.
    A field is set unless it is absent or empty. *)
Definition isSet (v : option string) : bool :=
  match v with
  | Some s => truthy s
  | None => false
  end.

(** Modelled from the spec: [Utils.getQueryMap] is not part of these
    sources. It builds a lookup of the rows keyed by the given column,
    here [bundle_id]. *)
Definition getQueryMap (rows : list app_row) : gmap Z app_row :=
  foldl (λ m r, <[app_row_bundle_id r := r]> m) ∅ rows.

(** *** [Bundle.get] *)

Definition columns : object string :=
  [("name", "g_bn.name"); ("removed", "g_b.removed")].

Definition columnKeys : list string := obj_keys columns ++ ["apps"].

Definition params_filters (req : request) : string :=
  or_else (query_filters req) (or_else (query_bundle_filters req) "").

Definition filters_validator : validator :=
  Validator
    ("Must be a comma-separated list containing the following values: "
       +:+ JsString.join ", " columnKeys)
    (Regex.Opt (Regex.Plus
       (Regex.Cat (Regex.alts (Regex.lit <$> columnKeys))
                  (Regex.Opt (Regex.Chr ","))))).

(** Lines 51-63: the [columns] and [filters] objects after the filter
    string has been applied. *)
Definition shape (filters : string) : object string * object bool :=
  let all := (λ columnKey, (columnKey, true)) <$> columnKeys in
  if truthy filters then
    let filterKeys := JsString.split "," filters in
    foldl (λ '(columns, filters) columnKey,
             if negb (JsString.includes filterKeys columnKey)
             then (obj_delete columnKey columns, obj_delete columnKey filters)
             else (columns, filters))
          (columns, all) columnKeys
  else (columns, all).

Definition has (filters : object bool) (k : string) : bool :=
  default false (obj_get k filters).

Definition select_columns (columns : object string) : list string :=
  ["g_b.bundle_id"] ++ obj_values columns
    ++ ["g_b.last_update"; "g_b.queued_for_update"].

(** Lines 125-128: the staleness test on a returned row. *)
Definition stale (now : Z) (row : bundle_row) : bool :=
  let lastUpdate := row_last_update row in
  let differenceInSeconds := now - lastUpdate in
  (60 * 60 * 24 * 6 <? differenceInSeconds)
  || (negb (isSet (row_name row)) && negb (truthy_flag (row_removed row))
      && (60 * 60 * 24 <? differenceInSeconds)).

(** Lines 122-132: whether the row is pushed on [to_queue]. *)
Definition requeue (now : Z) (row : bundle_row) : bool :=
  negb (row_queued_for_update row) && stale now row.

Definition parse_apps (appMap : gmap Z app_row) (id : Z) : list (option Z) :=
  match appMap !! id with
  | Some appRow => JsString.parseInt <$> JsString.split "," (app_row_apps appRow)
  | None => []
  end.

(** Lines 107-121 and 129: the projection built for a row. *)
Definition project (filters : object bool) (appMap : gmap Z app_row)
    (now : Z) (row : bundle_row) : Projection.t :=
  Projection.Make
    (row_bundle_id row)
    (if has filters "name" then Some (row_name row) else None)
    (if has filters "removed" then Some (truthy_flag (row_removed row)) else None)
    (if has filters "apps" then Some (parse_apps appMap (row_bundle_id row)) else None)
    (formatDate (row_last_update row * 1000) true)
    (row_queued_for_update row || requeue now row).

(** Lines 102-135: the loop over the rows, with its three arrays. *)
Definition get_loop (filters : object bool) (appMap : gmap Z app_row)
    (now : Z) (rows : list bundle_row)
    : list Projection.t * list Z * list Z :=
  foldl (λ '(bundles, found, to_queue) row,
           let bundle := project filters appMap now row in
           (bundles ++ [bundle],
            found ++ [Projection.bundle_id bundle],
            if requeue now row
            then to_queue ++ [Projection.bundle_id bundle]
            else to_queue))
        ([], [], []) rows.

Definition get (req : request) (ids : list Z) (now : Z)
    : M (list Projection.t) :=
  let filters_param := params_filters req in
  _ ← validateParams filters_param filters_validator;
  let '(columns, filters) := shape filters_param in
  rows ← (rs ← Pool_query
                 (SELECT_bundle (select_columns columns) (has filters "name") ids);
          mret (bundle_rows rs));
  appMap ← (if has filters "apps"
            then appRows ← Pool_query (SELECT_bundle_app ids);
                 mret (getQueryMap (app_rows appRows))
            else mret (M := M) ∅);
  let '(bundles, found, to_queue) := get_loop filters appMap now rows in
  let notFound := List.filter (λ id, negb (includes_id found id)) ids in
  let to_queue := to_queue ++ notFound in
  _ ← (if (0 <? Z.of_nat (length to_queue))
       then Pool_transaction
              (_ ← Pool_query (INSERT_bundle_queue to_queue); mret tt)
       else mret (M := M) tt);
  mret bundles.

(** *** [Bundle.fetch] *)

(** The upstream source: the response served for a URL under the fixed
    cookie configuration of [fetch]. *)
Variable upstream : string → response.

(** Modelled from the spec: [Request.get] of class/Request is not part of
    these sources. It resolves the URL and returns the parsed page and
    the final URL. *)
Definition Request_get (storeUrl : string) : M response :=
  mret (upstream storeUrl).

(** The pattern of line 170; in the template literal the backslashes are
    dropped, so each dot stands for any character. *)
Definition bundle_url_regex (bundleId : Z) : Regex.regex :=
  Regex.Cat (Regex.lit "store") (Regex.Cat Regex.Dot
    (Regex.Cat (Regex.lit "steampowered") (Regex.Cat Regex.Dot
      (Regex.Cat (Regex.lit "com") (Regex.Cat (Regex.Star Regex.Dot)
        (Regex.Cat (Regex.lit "/bundle/")
                   (Regex.lit (JsString.of_Z bundleId)))))))).

Definition fetch (bundleId : Z) (now : Z) : M unit :=
  let storeUrl :=
    "https://store.steampowered.com/bundle/" +:+ JsString.of_Z bundleId
      +:+ "?cc=us&l=en" in
  storeResponse ← Request_get storeUrl;
  match html storeResponse with
  | None => throw (CustomError COMMON_MESSAGES_steam 500)
  | Some page =>
      let isStoreResponseOk := bool_decide (is_Some (pageheader page)) in
      let removed :=
        negb (Regex.search (bundle_url_regex bundleId) (url storeResponse)) in
      let bundleName :=
        if isStoreResponseOk && negb removed then pageheader page else None in
      let bundle := BundleRecord removed now false in
      let apps :=
        if isStoreResponseOk && negb removed
        then JsString.parseInt <$> ds_appids page
        else [] in
      _ ← Pool_beginTransaction;
      try_catch
        (_ ← Pool_query (INSERT_bundle bundleId bundle);
         _ ← (if truthy_opt bundleName
              then _ ← Pool_query
                         (INSERT_IGNORE_bundle_name bundleId (default "" bundleName));
                   mret tt
              else mret (M := M) tt);
         _ ← (if (0 <? Z.of_nat (length apps))
              then _ ← Pool_query (INSERT_IGNORE_bundle_app bundleId apps);
                   mret tt
              else mret (M := M) tt);
         Pool_commit)
        (λ err, _ ← Pool_rollback; throw err)
  end.

End Model.

(** ** Observations used in the statements *)

(** The identifier lists of the queue writes found in a log. *)
Definition queue_writes (l : list statement) : list (list Z) :=
  omap (λ s, match s with INSERT_bundle_queue ids => Some ids | _ => None end) l.

(** A statement that reads, or delimits a transaction. *)
Definition read_only (s : statement) : bool :=
  match s with
  | BEGIN | COMMIT | ROLLBACK | SELECT_bundle _ _ _ | SELECT_bundle_app _ => true
  | _ => false
  end.

(** A connection acquired for a call: no transaction is open and no
    store failure is pending. *)
Definition healthy (c : connection) : Prop := txn c = None ∧ faults c = [].

(** The filter string passes the validator of [get]. *)
Definition valid_filters (req : request) : Prop :=
  Regex.full_match (validator_regex filters_validator) (params_filters req) = true.

(** The fields included by a request. *)
Definition included (req : request) (k : string) : bool :=
  has (shape (params_filters req)).2 k.

(** The staleness rule in words: older than 6 days, or older than 1 day
    with no name and not removed. *)
Definition stale_rule (now : Z) (row : bundle_row) : Prop :=
  now - row_last_update row > 6 * 86400
  ∨ ((row_name row = None ∨ row_name row = Some "")
     ∧ row_removed row ≠ Some true
     ∧ now - row_last_update row > 86400).

(** A comma-separated token of the filter string that is not empty and
    not in the vocabulary. *)
Definition foreign_token (filters : string) : Prop :=
  ∃ tok, tok ∈ JsString.split "," filters ∧ tok ≠ "" ∧ tok ∉ columnKeys.

(** The rows the primary SELECT of [get] returns on tables [t]. *)
Definition selected (t : tables) (req : request) (ids : list Z) : list bundle_row :=
  omap (select_row (select_columns (shape (params_filters req)).1)
          (included req "name") (games__bundle_name t) ids)
       (map_to_list (games__bundle t)).

(** The eight shapes of the [columns] and [filters] objects. *)
Definition shape_of (n r a : bool) : object string * object bool :=
  ((if n then [("name", "g_bn.name")] else [])
     ++ (if r then [("removed", "g_b.removed")] else []),
   (if n then [("name", true)] else [])
     ++ (if r then [("removed", true)] else [])
     ++ (if a then [("apps", true)] else [])).

(** The lookup [appMap] that [get] builds on tables [t]. *)
Definition get_appMap (t : tables) (req : request) (ids : list Z) : gmap Z app_row :=
  if included req "apps"
  then getQueryMap (select_apps (games__bundle_app t) ids)
  else ∅.

(** The final [to_queue] array of [get] on tables [t]. *)
Definition get_to_queue (t : tables) (req : request) (ids : list Z) (now : Z)
    : list Z :=
  let rows := selected t req ids in
  (row_bundle_id <$> List.filter (requeue now) rows)
    ++ List.filter (λ id, negb (includes_id (row_bundle_id <$> rows) id)) ids.

(** The statements a successful [get] sends. *)
Definition get_statements (req : request) (ids to_queue : list Z)
    : list statement :=
  [SELECT_bundle (select_columns (shape (params_filters req)).1)
     (included req "name") ids]
    ++ (if included req "apps" then [SELECT_bundle_app ids] else [])
    ++ (match to_queue with
        | [] => []
        | _ => [BEGIN; INSERT_bundle_queue to_queue; COMMIT]
        end).

(** What [get] reports and queues for one returned row. *)
Definition row_verdict (now : Z) (sent : list statement)
    (row : bundle_row) (bundle : Projection.t) (marked : bool) : Prop :=
  Projection.bundle_id bundle = row_bundle_id row
  ∧ Projection.queued_for_update bundle = (row_queued_for_update row || marked)
  ∧ if marked
    then ∃ q, q ∈ queue_writes sent ∧ row_bundle_id row ∈ q
    else ∀ q, q ∈ queue_writes sent → row_bundle_id row ∉ q.


(** ** A program logic for the monad *)

(** From a connection satisfying [P], the computation ends either with a
    value and a connection satisfying [Q], or with an error and a
    connection satisfying [E]. *)
Definition hoare {A} (P : connection → Prop) (m : M A)
    (Q : A → connection → Prop) (E : error → connection → Prop) : Prop :=
  ∀ c, P c →
    match m c with
    | (inr x, c') => Q x c'
    | (inl e, c') => E e c'
    end.

(** Tables [t] extend [t0] by writes that touch nothing but the
    [queued_for_update] column and add no child row. *)
Definition frame (t0 t : tables) : Prop :=
  (∀ id rec, games__bundle t0 !! id = Some rec →
     ∃ q, games__bundle t !! id
          = Some (BundleRecord (removed rec) (last_update rec) q))
  ∧ games__bundle_name t = games__bundle_name t0
  ∧ games__bundle_app t = games__bundle_app t0.

(** A statement [get] may send: a read, a transaction delimiter, or the
    queue write. *)
Definition get_statement (s : statement) : Prop :=
  read_only s = true ∨ ∃ q, s = INSERT_bundle_queue q.

(** The invariant of [get] started on tables [t0] with log [lg0]. *)
Definition frame_inv (t0 : tables) (lg0 : list statement) (c : connection) : Prop :=
  frame t0 (committed c)
  ∧ frame t0 (visible c)
  ∧ ∃ sent, log c = lg0 ++ sent ∧ Forall get_statement sent.

(** Inside the transaction opened by [fetch] on committed tables [t0]. *)
Definition in_txn (t0 : tables) (c : connection) : Prop :=
  committed c = t0 ∧ is_Some (txn c).

(** ** What [fetch] scrapes from a response *)

Definition store_url (bundleId : Z) : string :=
  "https://store.steampowered.com/bundle/" +:+ JsString.of_Z bundleId
    +:+ "?cc=us&l=en".

(** The final URL no longer matches the page pattern of the bundle. *)
Definition page_removed (bundleId : Z) (resp : response) : bool :=
  negb (Regex.search (bundle_url_regex bundleId) (url resp)).

(** The page has a header and was not redirected away. *)
Definition page_usable (bundleId : Z) (resp : response) (page : document) : bool :=
  bool_decide (is_Some (pageheader page)) && negb (page_removed bundleId resp).

Definition page_name (bundleId : Z) (resp : response) (page : document)
    : option string :=
  if page_usable bundleId resp page then pageheader page else None.

Definition page_apps (bundleId : Z) (resp : response) (page : document)
    : list (option Z) :=
  if page_usable bundleId resp page
  then JsString.parseInt <$> ds_appids page
  else [].

(** The tables after the three writes of a successful [fetch]. *)
Definition fetch_tables (bundleId now : Z) (resp : response) (page : document)
    (t : tables) : tables :=
  Tables
    (<[bundleId := BundleRecord (page_removed bundleId resp) now false]>
       (games__bundle t))
    (if truthy_opt (page_name bundleId resp page)
     then insert_ignore_name (games__bundle_name t) bundleId
            (default "" (page_name bundleId resp page))
     else games__bundle_name t)
    (match page_apps bundleId resp page with
     | [] => games__bundle_app t
     | apps => list_to_set ((λ a, (bundleId, a)) <$> omap id apps)
                 ∪ games__bundle_app t
     end).

(** The statements of the upsert transaction of [fetch], up to the
    insertion of the app pairs. *)
Definition fetch_writes (bundleId now : Z) (resp : response) (page : document)
    : list statement :=
  [BEGIN;
   INSERT_bundle bundleId (BundleRecord (page_removed bundleId resp) now false)]
    ++ (if truthy_opt (page_name bundleId resp page)
        then [INSERT_IGNORE_bundle_name bundleId
                (default "" (page_name bundleId resp page))]
        else [])
    ++ (match page_apps bundleId resp page with
        | [] => []
        | apps => [INSERT_IGNORE_bundle_app bundleId apps]
        end).

(** The store operations of the upsert transaction of [fetch], in the
    order in which they are sent when none fails. *)
Definition fetch_steps (bundleId now : Z) (resp : response) (page : document)
    : list statement :=
  fetch_writes bundleId now resp page ++ [COMMIT].

(** ** The language of a regular expression *)

Inductive lang : Regex.regex → string → Prop :=
| lang_eps : lang Regex.Eps ""
| lang_chr a : lang (Regex.Chr a) (String a "")
| lang_dot a : Regex.line_terminator a = false → lang Regex.Dot (String a "")
| lang_any a : lang Regex.AnyChar (String a "")
| lang_alt_l r1 r2 s : lang r1 s → lang (Regex.Alt r1 r2) s
| lang_alt_r r1 r2 s : lang r2 s → lang (Regex.Alt r1 r2) s
| lang_cat r1 r2 s1 s2 :
    lang r1 s1 → lang r2 s2 → lang (Regex.Cat r1 r2) (s1 +:+ s2)
| lang_star_nil r : lang (Regex.Star r) ""
| lang_star_cons r s1 s2 :
    lang r s1 → lang (Regex.Star r) s2 → lang (Regex.Star r) (s1 +:+ s2).

(** A well-formed filter string: words of the vocabulary, each optionally
    followed by one comma. *)
Inductive filter_list : string → Prop :=
| filter_list_nil : filter_list ""
| filter_list_word w s :
    w ∈ columnKeys → filter_list s → filter_list (w +:+ s)
| filter_list_word_comma w s :
    w ∈ columnKeys → filter_list s → filter_list (w +:+ String "," s).

(** ** Sample data for the examples *)

(** A stand-in for [Utils.formatDate]: it prints the milliseconds. *)
Definition sample_formatDate (ms : Z) (utc : bool) : string := JsString.of_Z ms.

(** Bundle 1 was refreshed and has a name and two apps; bundles 2 and 3
    were refreshed without a name, 2 as removed; bundle 4 is a bare row
    left by an earlier [get]. *)
Definition sample_tables : tables :=
  Tables
    (list_to_map [(1, BundleRecord false 1000000 false);
                  (2, BundleRecord true 1000000 false);
                  (3, BundleRecord false 1000000 false);
                  (4, BundleRecord false 0 true)])
    (list_to_map [(1, "One")])
    (list_to_set [(1, 10); (1, 11)]).

Definition sample_connection : connection := Connection sample_tables None [] [].

Definition filters_req (filters : string) : request := Request (Some filters) None.

Definition no_filters : request := Request None None.

(** Two hours after the refresh of bundles 1 to 3. *)
Definition two_hours_later : Z := 1000000 + 2 * 3600.

(** Bundle 42 with a name row and an app pair from an earlier scrape. *)
Definition stale_tables : tables :=
  Tables
    (list_to_map [(42, BundleRecord false 1000000 true)])
    (list_to_map [(42, "Old Bundle")])
    (list_to_set [(42, 7)]).

(** The source redirects every bundle page to the storefront. *)
Definition redirected (storeUrl : string) : response :=
  Response (Some (Document (Some "Welcome to Steam") []))
    "https://store.steampowered.com/".

(** The source serves a bundle page with a header and two apps. *)
Definition bundle_page (storeUrl : string) : response :=
  Response (Some (Document (Some "Some Bundle") ["10"; "12"]))
    "https://store.steampowered.com/bundle/42/Some_Bundle/".

(** The source produces no content. *)
Definition unreachable (storeUrl : string) : response :=
  Response None "".

(** * Properties *)

(** ** Printing and parsing the app identifiers *)

Section Strings.
Import JsString.

Lemma append_cons a (s1 s2 : string) :
  String a s1 +:+ s2 = String a (s1 +:+ s2).
Proof. reflexivity. Qed.

Lemma append_nil_l (s : string) : "" +:+ s = s.
Proof. reflexivity. Qed.

Lemma append_assoc (s1 s2 s3 : string) :
  (s1 +:+ s2) +:+ s3 = s1 +:+ (s2 +:+ s3).
Proof. induction s1; [done|]. rewrite !append_cons. congruence. Qed.

Lemma append_empty_r (s : string) : s +:+ "" = s.
Proof. induction s; [done|]. rewrite append_cons. congruence. Qed.

Lemma nat_of_digit_char d :
  0 ≤ d < 10 → Z.of_nat (nat_of_ascii (digit_char d)) = 48 + d.
Proof.
  intros Hd. unfold digit_char. rewrite nat_ascii_embedding by lia. lia.
Qed.

Lemma is_digit_digit_char d : 0 ≤ d < 10 → is_digit (digit_char d) = true.
Proof.
  intros Hd. unfold is_digit. rewrite nat_of_digit_char by done.
  apply andb_true_iff. split; apply Z.leb_le; lia.
Qed.

Lemma digit_val_digit_char d : 0 ≤ d < 10 → digit_val (digit_char d) = Some d.
Proof.
  intros Hd. unfold digit_val. rewrite nat_of_digit_char by done.
  replace ((48 <=? 48 + d) && (48 + d <=? 57)) with true.
  - f_equal. lia.
  - symmetry. apply andb_true_iff. split; apply Z.leb_le; lia.
Qed.

Lemma is_digit_not_char a b :
  is_digit a = true → is_digit b = false → Ascii.eqb a b = false.
Proof.
  intros Ha Hb. destruct (Ascii.eqb_spec a b) as [->|]; [congruence|done].
Qed.

Lemma is_digit_not_space a : is_digit a = true → is_space a = false.
Proof.
  unfold is_digit, is_space. intros [H1 H2]%andb_true_iff.
  apply Z.leb_le in H1, H2.
  apply orb_false_iff. split.
  - apply andb_false_iff. right. apply Nat.leb_gt. lia.
  - apply Nat.eqb_neq. lia.
Qed.

(** The digits printed for [z] are digits only, there is at least one,
    and reading them back in radix 10 appends [z] to the accumulator. *)
Lemma digits_of_spec fuel z acc :
  0 ≤ z < 2 ^ Z.of_nat fuel → fuel ≠ O →
  ∃ a ds k,
    digits_of fuel z acc = String a ds +:+ acc
    ∧ all_chars is_digit (String a ds) = true
    ∧ 0 < k
    ∧ ∀ v, parse_digits 10 (digits_of fuel z acc) v
           = parse_digits 10 acc (Some (default 0 v * 10 ^ k + z)).
Proof.
  revert z acc. induction fuel as [|fuel IH]; intros z acc Hz Hfuel; [done|].
  cbn [digits_of]. destruct (z <? 10) eqn:Hlt.
  - apply Z.ltb_lt in Hlt. rewrite Z.mod_small by lia.
    exists (digit_char z), "", 1. split_and!; [done| |lia|].
    + cbn [all_chars]. by rewrite is_digit_digit_char by lia.
    + intros v. cbn [parse_digits]. rewrite digit_val_digit_char by lia.
      replace (z <? 10) with true by (symmetry; apply Z.ltb_lt; lia).
      do 2 f_equal; lia.
  - apply Z.ltb_ge in Hlt.
    assert (Hd : 0 ≤ z mod 10 < 10) by (apply Z.mod_pos_bound; lia).
    destruct (IH (z / 10) (String (digit_char (z mod 10)) acc))
      as (a & ds & k & Heq & Hall & Hk & Hparse).
    { split; [apply Z.div_pos; lia|].
      rewrite Nat2Z.inj_succ, Z.pow_succ_r in Hz by lia.
      apply Z.div_lt_upper_bound; lia. }
    { intros ->. simpl in Hz. lia. }
    exists a, (ds +:+ String (digit_char (z mod 10)) ""), (k + 1).
    split_and!; [| |lia|].
    + rewrite Heq. change (String a (ds +:+ String (digit_char (z mod 10)) ""))
        with (String a ds +:+ String (digit_char (z mod 10)) "").
      by rewrite append_assoc.
    + cbn [all_chars] in Hall |- *.
      apply andb_true_iff in Hall as [-> Hall]. cbn [andb].
      clear -Hall Hd. induction ds as [|b ds IHds].
      * rewrite append_nil_l. cbn [all_chars]. by rewrite is_digit_digit_char.
      * rewrite append_cons. cbn [all_chars] in *.
        apply andb_true_iff in Hall as [-> Hall]. cbn [andb]. by apply IHds.
    + intros v. rewrite Hparse. cbn [parse_digits].
      rewrite digit_val_digit_char by done.
      replace (z mod 10 <? 10) with true by (symmetry; apply Z.ltb_lt; lia).
      do 2 f_equal. cbn [default].
      rewrite Z.pow_add_r, Z.pow_1_r by lia.
      unfold id. generalize (default 0 v), (10 ^ k). intros a0 p.
      pose proof (Z.div_mod z 10). lia.
Qed.

Lemma log2_fuel z : 0 ≤ z → 0 ≤ z < 2 ^ Z.of_nat (S (Z.to_nat (Z.log2 z))).
Proof.
  intros Hz. split; [done|].
  rewrite Nat2Z.inj_succ, Z2Nat.id by apply Z.log2_nonneg.
  destruct (decide (z = 0)) as [->|Hne]; [done|].
  apply Z.log2_spec. lia.
Qed.

Lemma parse_unsigned_digits a ds :
  all_chars is_digit (String a ds) = true →
  parse_unsigned (String a ds) = parse_digits 10 (String a ds) None.
Proof.
  intros Hall. unfold parse_unsigned. destruct ds as [|b ds]; [done|].
  simpl in Hall. apply andb_true_iff in Hall as [_ [Hb _]%andb_true_iff].
  rewrite !(is_digit_not_char b) by done. simpl. by rewrite andb_false_r.
Qed.

Lemma digits_parse z :
  0 ≤ z →
  ∃ a ds,
    digits_of (S (Z.to_nat (Z.log2 z))) z "" = String a ds
    ∧ all_chars is_digit (String a ds) = true
    ∧ parse_unsigned (String a ds) = Some z.
Proof.
  intros Hz.
  destruct (digits_of_spec _ z "" (log2_fuel z Hz))
    as (a & ds & k & Heq & Hall & Hk & Hparse); [done|].
  rewrite append_empty_r in Heq. exists a, ds. split_and!; [done|done|].
  rewrite parse_unsigned_digits by done. rewrite <- Heq, Hparse.
  cbn [parse_digits default]. f_equal; lia.
Qed.

(** Reading back a printed integer gives the integer. *)
Lemma parseInt_of_Z z : parseInt (of_Z z) = Some z.
Proof.
  unfold of_Z. destruct (z <? 0) eqn:Hneg.
  - apply Z.ltb_lt in Hneg.
    destruct (digits_parse (- z)) as (a & ds & -> & _ & Hp); [lia|].
    unfold parseInt. cbn [skip_space]. change (is_space "-") with false.
    cbn iota. change (Ascii.eqb "-" "-") with true. cbn iota.
    rewrite Hp. cbn. f_equal; lia.
  - apply Z.ltb_ge in Hneg.
    destruct (digits_parse z) as (a & ds & -> & Hall & Hp); [lia|].
    assert (Ha : is_digit a = true).
    { simpl in Hall. by apply andb_true_iff in Hall as [-> _]. }
    unfold parseInt. cbn [skip_space]. rewrite is_digit_not_space by done.
    by rewrite !(is_digit_not_char a).
Qed.

Lemma of_Z_no_comma z : all_chars not_comma (of_Z z) = true.
Proof.
  assert (Hd : ∀ s, all_chars is_digit s = true → all_chars not_comma s = true).
  { induction s as [|a s IHs]; [done|]. simpl.
    intros [Ha Hs]%andb_true_iff. rewrite IHs by done.
    unfold not_comma. by rewrite (is_digit_not_char a). }
  unfold of_Z. destruct (z <? 0) eqn:Hneg.
  - apply Z.ltb_lt in Hneg.
    destruct (digits_parse (- z)) as (a & ds & -> & Hall & _); [lia|].
    change (all_chars not_comma (String "-" (String a ds)))
      with (all_chars not_comma (String a ds)). by apply Hd.
  - apply Z.ltb_ge in Hneg.
    destruct (digits_parse z) as (a & ds & -> & Hall & _); [lia|].
    by apply Hd.
Qed.

Lemma split_no_comma s : all_chars not_comma s = true → split "," s = [s].
Proof.
  induction s as [|a s IH]; [done|]. simpl.
  intros [Ha Hs]%andb_true_iff. unfold not_comma in Ha.
  apply negb_true_iff in Ha. rewrite Ha. by rewrite IH.
Qed.

Lemma split_comma s rest :
  all_chars not_comma s = true →
  split "," (s +:+ String "," rest) = s :: split "," rest.
Proof.
  induction s as [|a s IH]; [done|]. rewrite append_cons. simpl.
  intros [Ha Hs]%andb_true_iff. unfold not_comma in Ha.
  apply negb_true_iff in Ha. rewrite Ha. by rewrite IH.
Qed.

(** Splitting a GROUP_CONCAT of integers and parsing the pieces gives
    the integers back. *)
Lemma parse_group_concat (l : list Z) :
  l ≠ [] →
  parseInt <$> split "," (join "," (of_Z <$> l)) = Some <$> l.
Proof.
  intros Hl. induction l as [|x l IH]; [done|].
  destruct l as [|y l].
  - simpl. rewrite split_no_comma by apply of_Z_no_comma.
    simpl. by rewrite parseInt_of_Z.
  - change (join "," (of_Z <$> x :: y :: l))
      with (of_Z x +:+ String "," (join "," (of_Z <$> y :: l))).
    rewrite split_comma by apply of_Z_no_comma.
    rewrite fmap_cons, parseInt_of_Z, IH by done. done.
Qed.

End Strings.

(** ** The matcher decides the language *)

Section RegexSemantics.
Import Regex.

Lemma append_eq_nil (s1 s2 : string) : s1 +:+ s2 = "" → s1 = "" ∧ s2 = "".
Proof. destruct s1; [done|]. rewrite append_cons. discriminate. Qed.

Lemma append_eq_cons (s1 s2 : string) a s :
  s1 +:+ s2 = String a s →
  (s1 = "" ∧ s2 = String a s) ∨ ∃ s1', s1 = String a s1' ∧ s = s1' +:+ s2.
Proof.
  destruct s1 as [|b s1]; [by left|]. rewrite append_cons.
  intros [= -> <-]. right. by exists s1.
Qed.

Lemma lang_void s : ¬ lang Void s.
Proof. intros H. inversion H. Qed.

Lemma lang_eps_inv s : lang Eps s → s = "".
Proof. intros H. by inversion H. Qed.

Lemma nullable_lang r : nullable r = true ↔ lang r "".
Proof.
  split.
  - induction r; simpl; intros Hn; try discriminate.
    + constructor.
    + apply orb_true_iff in Hn as [Hn|Hn];
        [apply lang_alt_l | apply lang_alt_r]; auto.
    + apply andb_true_iff in Hn as [H1 H2].
      change "" with ("" +:+ ""). constructor; auto.
    + constructor.
  - intros H. remember "" as s eqn:Hs.
    induction H; simpl; try discriminate; try done.
    + rewrite IHlang; done.
    + rewrite IHlang, orb_true_r; done.
    + apply append_eq_nil in Hs as [-> ->]. by rewrite IHlang1, IHlang2.
Qed.

Lemma lang_cat_smart r1 r2 s : lang (cat r1 r2) s ↔ lang (Cat r1 r2) s.
Proof.
  destruct r1; simpl; try done.
  - split; [by intros ?%lang_void|]. intros H. inversion H; subst.
    by apply lang_void in H2.
  - split.
    + intros H. change s with ("" +:+ s). constructor; [constructor|done].
    + intros H. inversion H; subst. apply lang_eps_inv in H2. by subst.
Qed.

Lemma lang_alt_smart r1 r2 s : lang (alt r1 r2) s ↔ lang (Alt r1 r2) s.
Proof.
  assert (Hl : ∀ r, lang (Alt Void r) s ↔ lang r s).
  { intros r. split; [|by apply lang_alt_r].
    intros H. inversion H; subst; [by apply lang_void in H3|done]. }
  assert (Hr : ∀ r, lang (Alt r Void) s ↔ lang r s).
  { intros r. split; [|by apply lang_alt_l].
    intros H. inversion H; subst; [done|by apply lang_void in H3]. }
  destruct r1, r2; simpl; rewrite ?Hl, ?Hr; done.
Qed.

Lemma lang_cat_cons r1 r2 a s :
  lang (Cat r1 r2) (String a s) ↔
  (∃ s1 s2, s = s1 +:+ s2 ∧ lang r1 (String a s1) ∧ lang r2 s2)
  ∨ (lang r1 "" ∧ lang r2 (String a s)).
Proof.
  split.
  - intros H. inversion H as [| | | | | |? ? s1 s2 H1 H2 Hr Hs| |]; subst.
    apply append_eq_cons in Hs as [[-> ->]|(s1' & -> & ->)]; [by right|].
    left. eauto.
  - intros [(s1 & s2 & -> & H1 & H2)|[H1 H2]].
    + rewrite <- append_cons. by constructor.
    + change (String a s) with ("" +:+ String a s). by constructor.
Qed.

Lemma lang_star_cons_inv r a s :
  lang (Star r) (String a s) →
  ∃ s1 s2, s = s1 +:+ s2 ∧ lang r (String a s1) ∧ lang (Star r) s2.
Proof.
  intros H. remember (Star r) as r' eqn:Hr. remember (String a s) as s' eqn:Hs.
  revert Hs. induction H; try discriminate; intros Hs.
  injection Hr as ->.
  apply append_eq_cons in Hs as [[-> ->]|(s1' & -> & ->)].
  - by apply IHlang2.
  - eauto.
Qed.

Lemma deriv_lang a r s : lang (deriv a r) s ↔ lang r (String a s).
Proof.
  revert s. induction r as [| |b| | |r1 IH1 r2 IH2|r1 IH1 r2 IH2|r1 IH1];
    intros s; cbn [deriv].
  - split; intros H; inversion H.
  - split; intros H; inversion H.
  - destruct (Ascii.eqb_spec a b) as [->|Hne].
    + split; intros H; inversion H; subst; constructor.
    + split; intros H; inversion H; by subst.
  - destruct (line_terminator a) eqn:Hlt.
    + split; intros H; inversion H; subst; congruence.
    + split; intros H; inversion H; subst; by constructor.
  - split; intros H; inversion H; subst; constructor.
  - rewrite lang_alt_smart. split.
    + intros H. inversion H; subst;
        [apply lang_alt_l; by apply IH1 | apply lang_alt_r; by apply IH2].
    + intros H. inversion H; subst;
        [apply lang_alt_l; by apply IH1 | apply lang_alt_r; by apply IH2].
  - rewrite lang_cat_cons. destruct (nullable r1) eqn:Hn.
    + rewrite lang_alt_smart. split.
      * intros H. inversion H as [| | | |? ? ? H1|? ? ? H1| | |]; subst.
        -- apply lang_cat_smart in H1.
           inversion H1 as [| | | | | |? ? s1 s2 Hd H2| |]; subst.
           left. exists s1, s2. split; [done|]. split; [by apply IH1|done].
        -- right. split; [by apply nullable_lang|by apply IH2].
      * intros [(s1 & s2 & -> & H1 & H2)|[H1 H2]].
        -- apply lang_alt_l, lang_cat_smart. constructor; [by apply IH1|done].
        -- apply lang_alt_r. by apply IH2.
    + rewrite lang_cat_smart. split.
      * intros H. inversion H as [| | | | | |? ? s1 s2 Hd H2| |]; subst.
        left. exists s1, s2. split; [done|]. split; [by apply IH1|done].
      * intros [(s1 & s2 & -> & H1 & H2)|[H1 H2]].
        -- constructor; [by apply IH1|done].
        -- apply nullable_lang in H1. congruence.
  - rewrite lang_cat_smart. split.
    + intros H. inversion H as [| | | | | |? ? s1 s2 Hd H2| |]; subst.
      rewrite <- append_cons. constructor; [by apply IH1|done].
    + intros H. apply lang_star_cons_inv in H as (s1 & s2 & -> & H1 & H2).
      constructor; [by apply IH1|done].
Qed.

(** The derivative matcher accepts exactly the language of the pattern. *)
Lemma full_match_lang r s : full_match r s = true ↔ lang r s.
Proof.
  revert r. induction s as [|a s IH]; intros r; cbn [full_match].
  - apply nullable_lang.
  - rewrite IH. apply deriv_lang.
Qed.

End RegexSemantics.

(** ** The pattern of the filters validator *)

Section ValidatorPattern.
Import Regex.

Lemma lang_lit w s : lang (lit w) s ↔ s = w.
Proof.
  revert s. induction w as [|a w IH]; intros s; cbn [lit].
  - split; [apply lang_eps_inv | intros ->; constructor].
  - split.
    + intros H. inversion H as [| | | | | |? ? s1 s2 H1 H2| |]; subst.
      inversion H1; subst. apply IH in H2. by subst.
    + intros ->. change (String a w) with (String a "" +:+ w).
      constructor; [constructor | by apply IH].
Qed.

Lemma lang_words s : lang (alts (lit <$> columnKeys)) s ↔ s ∈ columnKeys.
Proof.
  change (alts (lit <$> columnKeys))
    with (Alt (lit "name") (Alt (lit "removed") (lit "apps"))).
  change columnKeys with ["name"; "removed"; "apps"].
  split.
  - intros H. inversion H as [| | | |? ? ? H1|? ? ? H1| | |]; subst.
    { apply (lang_lit "name") in H1 as ->. left. }
    inversion H1 as [| | | |? ? ? H2|? ? ? H2| | |]; subst.
    + apply (lang_lit "removed") in H2 as ->. right; left.
    + apply (lang_lit "apps") in H2 as ->. right; right; left.
  - intros H. apply list_elem_of_In in H. simpl in H.
    destruct H as [<-|[<-|[<-|[]]]].
    + apply lang_alt_l. by apply lang_lit.
    + apply lang_alt_r, lang_alt_l. by apply lang_lit.
    + apply lang_alt_r, lang_alt_r. by apply lang_lit.
Qed.

Lemma lang_item s :
  lang (Cat (alts (lit <$> columnKeys)) (Opt (Chr ","))) s ↔
  ∃ w, w ∈ columnKeys ∧ (s = w ∨ s = w +:+ ",").
Proof.
  split.
  - intros H. inversion H as [| | | | | |? ? s1 s2 H1 H2| |]; subst.
    apply lang_words in H1. exists s1. split; [done|].
    inversion H2 as [| | | |? ? ? H3|? ? ? H3| | |]; subst.
    + inversion H3; subst. by right.
    + inversion H3; subst. left. apply append_empty_r.
  - intros (w & Hw & [->| ->]).
    + rewrite <- (append_empty_r w). constructor; [by apply lang_words|].
      apply lang_alt_r. constructor.
    + constructor; [by apply lang_words|]. apply lang_alt_l. constructor.
Qed.

Lemma lang_star_items s :
  lang (Star (Cat (alts (lit <$> columnKeys)) (Opt (Chr ",")))) s ↔ filter_list s.
Proof.
  split.
  - intros H. remember (Star _) as r eqn:Hr.
    induction H; try discriminate; [constructor|].
    injection Hr as ->. apply lang_item in H as (w & Hw & [->| ->]).
    + apply filter_list_word; auto.
    + rewrite append_assoc. change ("," +:+ s2) with (String "," s2).
      apply filter_list_word_comma; auto.
  - induction 1 as [|w s Hw Hs IH|w s Hw Hs IH].
    + constructor.
    + constructor; [|done]. apply lang_item. eauto.
    + change (String "," s) with ("," +:+ s). rewrite <- append_assoc.
      constructor; [|done]. apply lang_item. eauto.
Qed.

(** The validator of [get] accepts exactly the well-formed filter strings. *)
Lemma validator_filter_list s :
  full_match (validator_regex filters_validator) s = true ↔ filter_list s.
Proof.
  rewrite full_match_lang, <- lang_star_items.
  change (validator_regex filters_validator)
    with (Alt (Cat (Cat (alts (lit <$> columnKeys)) (Opt (Chr ",")))
                   (Star (Cat (alts (lit <$> columnKeys)) (Opt (Chr ",")))))
              Eps).
  split.
  - intros H. inversion H as [| | | |? ? ? H1|? ? ? H1| | |]; subst.
    + inversion H1; subst. by constructor.
    + inversion H1; subst. constructor.
  - intros H. inversion H; subst.
    + apply lang_alt_r. constructor.
    + apply lang_alt_l. by constructor.
Qed.

Lemma valid_filters_iff req :
  valid_filters req ↔ filter_list (params_filters req).
Proof. apply validator_filter_list. Qed.

End ValidatorPattern.

(** ** [get] on a connection without pending failures *)

(** The three arrays of the loop of [get], in closed form. *)
Lemma get_loop_spec fd filters appMap now rows :
  get_loop fd filters appMap now rows =
    (project fd filters appMap now <$> rows,
     row_bundle_id <$> rows,
     row_bundle_id <$> List.filter (requeue now) rows).
Proof.
  unfold get_loop.
  set (step := λ '(bundles, found, to_queue) row, _).
  assert (G : ∀ rows bs fs qs,
    foldl step (bs, fs, qs) rows =
      (bs ++ (project fd filters appMap now <$> rows),
       fs ++ (row_bundle_id <$> rows),
       qs ++ (row_bundle_id <$> List.filter (requeue now) rows))).
  { clear rows. induction rows as [|row rows IH]; intros bs fs qs; simpl.
    - by rewrite !app_nil_r.
    - rewrite IH. destruct (requeue now row); simpl;
        by rewrite <- ?app_assoc. }
  apply G.
Qed.

Lemma shape_cases filters :
  ∃ n r a, shape filters = shape_of n r a.
Proof.
  unfold shape. destruct (truthy filters).
  - set (ks := JsString.split "," filters).
    exists (JsString.includes ks "name"), (JsString.includes ks "removed"),
           (JsString.includes ks "apps").
    destruct (JsString.includes ks "name") eqn:En,
      (JsString.includes ks "removed") eqn:Er,
      (JsString.includes ks "apps") eqn:Ea;
      cbn -[JsString.includes]; rewrite ?En; cbn -[JsString.includes];
      rewrite ?Er; cbn -[JsString.includes]; rewrite ?Ea; reflexivity.
  - by exists true, true, true.
Qed.

Lemma shape_of_has n r a :
  has (shape_of n r a).2 "name" = n
  ∧ has (shape_of n r a).2 "removed" = r
  ∧ has (shape_of n r a).2 "apps" = a
  ∧ JsString.includes (select_columns (shape_of n r a).1) "g_bn.name" = n
  ∧ JsString.includes (select_columns (shape_of n r a).1) "g_b.removed" = r.
Proof. by destruct n, r, a. Qed.


Section Properties.

Variable default_removed : bool.
Variable default_last_update : Z.
Variable formatDate : Z → bool → string.
Variable upstream : string → response.

Local Abbreviation get' := (get default_removed default_last_update formatDate).
Local Abbreviation queue_upsert' := (queue_upsert default_removed default_last_update).
Local Abbreviation Pool_query' := (Pool_query default_removed default_last_update).
Local Abbreviation run' := (run default_removed default_last_update).
Local Abbreviation fetch' := (fetch default_removed default_last_update upstream).

Lemma Pool_query_nofault s c :
  faults c = [] →
  Pool_query' s c =
    match run' s (visible c) with
    | Some (t', rs) => (inr rs, set_visible (record s c) t')
    | None => (inl (StoreError s), record s c)
    end.
Proof.
  intros Hf. unfold Pool_query, next_fault. rewrite Hf.
  destruct c; reflexivity.
Qed.

Lemma select_ok columns join ids :
  ids ≠ [] → JsString.includes columns "g_bn.name" && negb join = false →
  ∀ t, run' (SELECT_bundle columns join ids) t =
    Some (t, BundleRows
      (omap (select_row columns join (games__bundle_name t) ids)
            (map_to_list (games__bundle t)))).
Proof. intros Hids Hc t. destruct ids; [done|]. simpl. by rewrite Hc. Qed.

Lemma queue_write_ok q c :
  healthy c → q ≠ [] →
  Pool_transaction (Pool_query' (INSERT_bundle_queue q) ≫= λ _, mret ()) c =
    (inr (),
     Connection
       (Tables (foldl queue_upsert' (games__bundle (committed c)) q)
          (games__bundle_name (committed c)) (games__bundle_app (committed c)))
       None (log c ++ [BEGIN; INSERT_bundle_queue q; COMMIT]) []).
Proof.
  intros [Ht Hf] Hq. destruct c as [t tx lg fs]. simpl in *. subst tx fs.
  unfold Pool_transaction, Pool_beginTransaction, try_catch, Pool_commit,
    mbind, M_bind, mret, M_ret, next_fault.
  cbn [faults record visible txn committed log].
  rewrite Pool_query_nofault by done.
  destruct q as [|i q']; [done|].
  cbn [run visible txn committed set_visible record log faults].
  by rewrite <- !app_assoc.
Qed.

Lemma get_run req ids now c :
  healthy c → valid_filters req → ids ≠ [] →
  let t := committed c in
  let q := get_to_queue t req ids now in
  get' req ids now c =
    (inr (project formatDate (shape (params_filters req)).2
            (get_appMap t req ids) now <$> selected t req ids),
     Connection
       (match q with
        | [] => t
        | _ => Tables (foldl queue_upsert' (games__bundle t) q)
                 (games__bundle_name t) (games__bundle_app t)
        end)
       None (log c ++ get_statements req ids q) []).
Proof.
  intros [Ht Hf] Hv Hids t q.
  destruct c as [t0 tx lg fs]. simpl in *. subst tx fs t.
  unfold get, validateParams. rewrite Hv.
  subst q. unfold get_to_queue, get_statements, get_appMap, selected, included.
  destruct (shape_cases (params_filters req)) as (n & r & a & Hs).
  rewrite Hs.
  destruct (shape_of_has n r a) as (Hn & Hr & Ha & Hcn & Hcr).
  destruct (shape_of n r a) as [columns filters] eqn:Hso. cbn [fst snd] in Hn, Hr, Ha, Hcn, Hcr.
  cbn [fst snd]. rewrite Hn, Ha.
  unfold mbind, M_bind, mret, M_ret.
  rewrite Pool_query_nofault by done.
  rewrite select_ok; [|done|by rewrite Hcn; destruct n].
  cbn [visible txn committed set_visible record log faults bundle_rows].
  set (rows := omap _ _).
  assert (Happ : ∀ c1, faults c1 = [] → txn c1 = None →
    (if a then λ c : connection,
       let (s, c') := Pool_query' (SELECT_bundle_app ids) c in
       match s with
       | inl e => (inl e, c')
       | inr x => (inr (getQueryMap (app_rows x)), c')
       end
     else λ c : connection, (inr ∅, c)) c1 =
    (inr (if a then getQueryMap (select_apps (games__bundle_app (committed c1)) ids) else ∅),
     Connection (committed c1) None
       (log c1 ++ (if a then [SELECT_bundle_app ids] else [])) [])).
  { intros [t1 tx1 lg1 fs1] Hf1 Ht1. simpl in Hf1, Ht1. subst tx1 fs1. destruct a.
    - rewrite Pool_query_nofault by done. destruct ids; [done|]. reflexivity.
    - by rewrite app_nil_r. }
  rewrite Happ by done. clear Happ.
  cbn [committed log]. rewrite get_loop_spec.
  set (q := _ ++ List.filter _ ids).
  rewrite <- !app_assoc.
  destruct q as [|i q'] eqn:Hq.
  - cbn. by rewrite app_nil_r.
  - replace (0 <? Z.of_nat (length (i :: q'))) with true
      by (symmetry; apply Z.ltb_lt; simpl; lia).
    pose proof (queue_write_ok (i :: q')) as Hw.
    unfold mbind, M_bind, mret, M_ret in Hw. rewrite Hw by done.
    cbn [committed log]. by rewrite <- !app_assoc.
Qed.

(** *** The rows of the primary SELECT *)

Lemma includes_id_elem ids (id : Z) : includes_id ids id = true ↔ id ∈ ids.
Proof.
  unfold includes_id. rewrite existsb_exists. split.
  - intros (x & Hin & Heq). apply Z.eqb_eq in Heq. subst x.
    by apply list_elem_of_In.
  - intros Hin. exists id. split; [by apply list_elem_of_In | apply Z.eqb_refl].
Qed.

Lemma select_row_id columns join names ids k v row :
  select_row columns join names ids (k, v) = Some row → row_bundle_id row = k.
Proof.
  unfold select_row. destruct (includes_id ids k); [|done].
  destruct join; [destruct (names !! k)|]; intros [= <-]; done.
Qed.

Lemma omap_keys_sublist {V} (f : Z * V → option bundle_row) (l : list (Z * V)) :
  (∀ k v row, f (k, v) = Some row → row_bundle_id row = k) →
  sublist (row_bundle_id <$> omap f l) (l.*1).
Proof.
  intros Hf. induction l as [|[k v] l IH]; simpl; [constructor|].
  destruct (f (k, v)) as [row|] eqn:E; simpl.
  - rewrite (Hf _ _ _ E). by constructor.
  - by constructor.
Qed.

Lemma selected_NoDup t req ids : NoDup (row_bundle_id <$> selected t req ids).
Proof.
  unfold selected.
  apply (sublist_NoDup _ ((map_to_list (games__bundle t)).*1));
    [apply NoDup_fst_map_to_list|].
  apply omap_keys_sublist. intros k v row. apply select_row_id.
Qed.

(** What a returned row holds, in terms of the stored record. *)
Lemma elem_of_selected t req ids row :
  row ∈ selected t req ids ↔
  ∃ r, games__bundle t !! row_bundle_id row = Some r
     ∧ row_bundle_id row ∈ ids
     ∧ (if included req "name"
        then ∃ nm, games__bundle_name t !! row_bundle_id row = Some nm
                   ∧ row_name row = Some nm
        else row_name row = None)
     ∧ row_removed row = (if included req "removed" then Some (removed r) else None)
     ∧ row_last_update row = last_update r
     ∧ row_queued_for_update row = queued_for_update r.
Proof.
  unfold selected, included.
  destruct (shape_cases (params_filters req)) as (n & rm & a & Hs). rewrite Hs.
  destruct (shape_of_has n rm a) as (Hn & Hr & _ & Hcn & Hcr).
  rewrite Hn, Hr. rewrite list_elem_of_omap. split.
  - intros ([k v] & Hin & Hsel). apply elem_of_map_to_list in Hin.
    unfold select_row in Hsel. rewrite Hcn, Hcr in Hsel.
    destruct (includes_id ids k) eqn:Hk; [|done].
    apply includes_id_elem in Hk.
    destruct n.
    + destruct (games__bundle_name t !! k) as [nm|] eqn:Hnm; [|done].
      injection Hsel as <-. simpl. eauto 10.
    + injection Hsel as <-. simpl. eauto 10.
  - intros (r & Hlk & Hin & Hname & Hrem & Hlu & Hq).
    exists (row_bundle_id row, r). split; [by apply elem_of_map_to_list|].
    unfold select_row. rewrite Hcn, Hcr.
    apply includes_id_elem in Hin. rewrite Hin.
    destruct row as [i nm rmv lu qu]. simpl in *. subst.
    destruct n.
    + destruct Hname as (nm' & -> & ->). done.
    + by subst.
Qed.

Lemma selected_ids t req ids id :
  id ∈ row_bundle_id <$> selected t req ids ↔
  id ∈ ids ∧ is_Some (games__bundle t !! id)
  ∧ (included req "name" = true → is_Some (games__bundle_name t !! id)).
Proof.
  rewrite list_elem_of_fmap. split.
  - intros (row & -> & Hrow). apply elem_of_selected in Hrow.
    destruct Hrow as (r & Hlk & Hin & Hname & _).
    split_and!; [done|by eexists|]. intros Hn. rewrite Hn in Hname.
    destruct Hname as (nm & -> & _). by eexists.
  - intros (Hin & [r Hr] & Hname).
    destruct (included req "name") eqn:Hn.
    + destruct Hname as [nm Hnm]; [done|].
      exists (BundleRow id (Some nm)
                (if included req "removed" then Some (removed r) else None)
                (last_update r) (queued_for_update r)).
      split; [done|]. apply elem_of_selected. simpl. rewrite Hn. eauto 10.
    + exists (BundleRow id None
                (if included req "removed" then Some (removed r) else None)
                (last_update r) (queued_for_update r)).
      split; [done|]. apply elem_of_selected. simpl. rewrite Hn. eauto 10.
Qed.

Lemma NoDup_fmap_elem_inj {A B} (f : A → B) (l : list A) x y :
  NoDup (f <$> l) → x ∈ l → y ∈ l → f x = f y → x = y.
Proof.
  induction l as [|a l IH]; simpl; intros Hnd Hx Hy Hf; [by inversion Hx|].
  apply NoDup_cons in Hnd as [Hna Hnd].
  apply elem_of_cons in Hx as [->|Hx]; apply elem_of_cons in Hy as [->|Hy];
    try done.
  - exfalso. apply Hna. rewrite Hf. by apply list_elem_of_fmap_2.
  - exfalso. apply Hna. rewrite <- Hf. by apply list_elem_of_fmap_2.
  - by apply IH.
Qed.

(** *** The staleness rule *)

Lemma isSet_false v : isSet v = false ↔ v = None ∨ v = Some "".
Proof.
  destruct v as [s|]; simpl; [|by split; [left|]].
  unfold truthy. destruct (String.eqb_spec s "") as [->|Hne]; simpl.
  - split; [by right|done].
  - split; [done|]. by intros [?|[= ->]].
Qed.

Lemma stale_iff now row : stale now row = true ↔ stale_rule now row.
Proof.
  unfold stale, stale_rule.
  rewrite orb_true_iff, !andb_true_iff, !negb_true_iff, !Z.ltb_lt, isSet_false.
  assert (truthy_flag (row_removed row) = false ↔ row_removed row ≠ Some true)
    as ->.
  { destruct (row_removed row) as [[]|]; simpl; split; congruence. }
  change (60 * 60 * 24 * 6) with (6 * 86400). change (60 * 60 * 24) with 86400.
  split.
  - intros [?|[[? ?] ?]]; [left; lia | right; split_and!; [done|done|lia]].
  - intros [?|(? & ? & ?)]; [left; lia | right; split_and!; [done|done|lia]].
Qed.

Lemma requeue_iff now row :
  requeue now row = true ↔
  row_queued_for_update row = false ∧ stale_rule now row.
Proof.
  unfold requeue. by rewrite andb_true_iff, negb_true_iff, stale_iff.
Qed.

(** *** The queue write *)

Lemma queue_upsert_lookup m i id :
  queue_upsert' m i !! id =
    if decide (id = i)
    then Some (match m !! id with
               | Some r => BundleRecord (removed r) (last_update r) true
               | None => BundleRecord default_removed default_last_update true
               end)
    else m !! id.
Proof.
  unfold queue_upsert. case_decide as Hd.
  - subst i. destruct (m !! id); by rewrite lookup_insert_eq.
  - destruct (m !! i); by rewrite lookup_insert_ne.
Qed.

Lemma foldl_queue_upsert_lookup q m id :
  foldl queue_upsert' m q !! id =
    if decide (id ∈ q)
    then Some (match m !! id with
               | Some r => BundleRecord (removed r) (last_update r) true
               | None => BundleRecord default_removed default_last_update true
               end)
    else m !! id.
Proof.
  revert m. induction q as [|i q IH]; intros m; cbn [foldl].
  - rewrite decide_False; [done|]. by intros ?%elem_of_nil.
  - rewrite IH, queue_upsert_lookup.
    destruct (decide (id = i)) as [->|Hne].
    + rewrite (decide_True (P := i ∈ i :: q)) by left.
      destruct (m !! i); simpl; case_decide; done.
    + cbn match. destruct (decide (id ∈ q)) as [Hin|Hnin].
      * by rewrite decide_True by by right.
      * rewrite decide_False; [done|]. by intros [?|?]%elem_of_cons.
Qed.

Lemma queue_writes_get_statements req ids q :
  queue_writes (get_statements req ids q) =
    match q with [] => [] | _ => [q] end.
Proof.
  unfold get_statements, queue_writes.
  destruct (included req "apps"), q; reflexivity.
Qed.

Lemma queue_writes_app l1 l2 :
  queue_writes (l1 ++ l2) = queue_writes l1 ++ queue_writes l2.
Proof. unfold queue_writes. apply omap_app. Qed.

(** A returned row is in the final [to_queue] exactly when the loop pushed it. *)
Lemma to_queue_row t req ids now row :
  row ∈ selected t req ids →
  row_bundle_id row ∈ get_to_queue t req ids now ↔ requeue now row = true.
Proof.
  intros Hrow. unfold get_to_queue. rewrite elem_of_app. split.
  - intros [Hin|Hin].
    + apply list_elem_of_fmap in Hin as (row' & Hid & Hin).
      apply list_elem_of_In, filter_In in Hin as [Hin Hre].
      apply list_elem_of_In in Hin.
      assert (row = row') as ->; [|done].
      eapply NoDup_fmap_elem_inj; eauto using selected_NoDup.
    + apply list_elem_of_In, filter_In in Hin as [_ Hnf].
      apply negb_true_iff in Hnf.
      assert (includes_id (row_bundle_id <$> selected t req ids)
                (row_bundle_id row) = true) as Hc; [|congruence].
      apply includes_id_elem. by apply list_elem_of_fmap_2.
  - intros Hre. left. apply list_elem_of_fmap_2.
    apply list_elem_of_In, filter_In. split; [by apply list_elem_of_In|done].
Qed.

(** A requested identifier without a returned row is in the final [to_queue]. *)
Lemma to_queue_not_found t req ids now id :
  id ∈ ids → id ∉ row_bundle_id <$> selected t req ids →
  id ∈ get_to_queue t req ids now.
Proof.
  intros Hin Hnf. unfold get_to_queue. apply elem_of_app. right.
  apply list_elem_of_In, filter_In. split; [by apply list_elem_of_In|].
  apply negb_true_iff. destruct (includes_id _ id) eqn:E; [|done].
  by apply includes_id_elem in E.
Qed.

(** *** Claims about [get] *)

Lemma get_rows_verdict req ids now c :
  healthy c → valid_filters req → ids ≠ [] →
  ∃ rows bundles c' sent,
    get' req ids now c = (inr bundles, c')
    ∧ log c' =
        log c ++ SELECT_bundle (select_columns (shape (params_filters req)).1)
                   (included req "name") ids :: sent
    ∧ run' (SELECT_bundle (select_columns (shape (params_filters req)).1)
              (included req "name") ids) (committed c)
        = Some (committed c, BundleRows rows)
    ∧ Forall2 (λ row bundle,
                 row_verdict now sent row bundle (requeue now row))
        rows bundles.
Proof.
  intros Hc Hv Hids.
  pose proof (get_run req ids now c Hc Hv Hids) as Hrun. cbn zeta in Hrun.
  set (q := get_to_queue (committed c) req ids now) in *.
  eexists (selected (committed c) req ids), _, _, _.
  split; [exact Hrun|]. split; [reflexivity|]. split.
  { unfold selected, included.
    destruct (shape_cases (params_filters req)) as (n & r & a & Hs). rewrite Hs.
    destruct (shape_of_has n r a) as (Hn & _ & _ & Hcn & _).
    rewrite select_ok; [by rewrite Hn|done|]. rewrite Hcn, Hn. by destruct n. }
  apply Forall2_fmap_r, Forall_Forall2_diag, Forall_forall.
  intros row Hrow. unfold row_verdict. split; [done|]. split; [done|].
  assert (Hw : queue_writes
            ((if included req "apps" then [SELECT_bundle_app ids] else [])
             ++ match q with [] => [] | _ => [BEGIN; INSERT_bundle_queue q; COMMIT] end)
          = match q with [] => [] | _ => [q] end).
  { destruct (included req "apps"), q; reflexivity. }
  rewrite Hw. pose proof (to_queue_row _ _ _ now _ Hrow) as Hq. fold q in Hq.
  destruct (requeue now row).
  - exists q. split; [|by apply Hq]. destruct q; [|by left].
    exfalso. eapply not_elem_of_nil. by apply Hq.
  - intros q' Hq' Hin. destruct q; [by apply elem_of_nil in Hq'|].
    apply list_elem_of_singleton in Hq'. subst q'. apply Hq in Hin. done.
Qed.


(** C2, as amended. In [get], a returned row whose [queued_for_update]
    is false and whose name field is absent is marked for requeue when
    it is more than 1 day and at most 6 days old and its removed field
    is not true, and is not marked when the removed field is true; at 2
    hours old it is not marked, whatever the removed field. *)
Theorem get_requeue_nameless req ids now c :
  healthy c → valid_filters req → ids ≠ [] →
  ∃ rows bundles c' sent,
    get' req ids now c = (inr bundles, c')
    ∧ log c' =
        log c ++ SELECT_bundle (select_columns (shape (params_filters req)).1)
                   (included req "name") ids :: sent
    ∧ run' (SELECT_bundle (select_columns (shape (params_filters req)).1)
              (included req "name") ids) (committed c)
        = Some (committed c, BundleRows rows)
    ∧ Forall2 (λ row bundle,
         row_queued_for_update row = false → row_name row = None →
         let age := now - row_last_update row in
         (86400 < age ≤ 6 * 86400 → row_removed row ≠ Some true →
            Projection.queued_for_update bundle = true
            ∧ ∃ q, q ∈ queue_writes sent ∧ row_bundle_id row ∈ q)
         ∧ (86400 < age ≤ 6 * 86400 → row_removed row = Some true →
            Projection.queued_for_update bundle = false
            ∧ ∀ q, q ∈ queue_writes sent → row_bundle_id row ∉ q)
         ∧ (age = 2 * 3600 →
            Projection.queued_for_update bundle = false
            ∧ ∀ q, q ∈ queue_writes sent → row_bundle_id row ∉ q))
        rows bundles.
Proof.
  intros Hc Hv Hids.
  destruct (get_rows_verdict req ids now c Hc Hv Hids)
    as (rows & bundles & c' & sent & Hget & Hlog & Hrows & Hall).
  exists rows, bundles, c', sent. split_and!; try done.
  eapply Forall2_impl; [exact Hall|].
  intros row bundle (Hid & Hq & Hm) Hstored Hname age.
  rewrite Hstored in Hq. simpl in Hq.
  pose proof (requeue_iff now row) as Hre. unfold stale_rule in Hre.
  fold age in Hre.
  split_and!.
  - intros Hage Hrem. destruct (requeue now row); [done|].
    destruct Hre as [_ Hre]. discriminate Hre. split; [done|].
    right. split_and!; [by left|done|lia].
  - intros Hage Hrem. destruct (requeue now row); [|done].
    destruct Hre as [Hre _]. destruct (Hre eq_refl) as [_ [?|(_ & ? & _)]];
      [lia|done].
  - intros Hage. destruct (requeue now row); [|done].
    destruct Hre as [Hre _]. destruct (Hre eq_refl) as [_ [?|(_ & _ & ?)]]; lia.
Qed.

Lemma projection_ids fd filters appMap now (rows : list bundle_row) :
  Projection.bundle_id <$> (project fd filters appMap now <$> rows)
  = row_bundle_id <$> rows.
Proof. rewrite <- list_fmap_compose. by apply list_fmap_ext. Qed.

(** C3, as amended. For every non-empty list of requested identifiers,
    [get] returns exactly one projection per requested identifier that
    has a primary row and, when name is among the included fields, a
    name row as well. Every other requested identifier is absent from
    the projections and has [queued_for_update = true] in the committed
    store when [get] returns; when it had no primary row, this is a
    bare new row. The name and app tables are left as they were. *)
Theorem get_known_and_omitted req ids now c :
  healthy c → valid_filters req → ids ≠ [] →
  ∃ bundles c',
    get' req ids now c = (inr bundles, c')
    ∧ txn c' = None
    ∧ NoDup (Projection.bundle_id <$> bundles)
    ∧ (∀ id, id ∈ Projection.bundle_id <$> bundles ↔
             id ∈ ids
             ∧ is_Some (games__bundle (committed c) !! id)
             ∧ (included req "name" = true →
                is_Some (games__bundle_name (committed c) !! id)))
    ∧ (∀ id, id ∈ ids → id ∉ Projection.bundle_id <$> bundles →
             (∃ r, games__bundle (committed c') !! id = Some r
                   ∧ queued_for_update r = true)
             ∧ (games__bundle (committed c) !! id = None →
                games__bundle (committed c') !! id
                = Some (BundleRecord default_removed default_last_update true)))
    ∧ games__bundle_name (committed c') = games__bundle_name (committed c)
    ∧ games__bundle_app (committed c') = games__bundle_app (committed c).
Proof.
  intros Hc Hv Hids.
  pose proof (get_run req ids now c Hc Hv Hids) as Hrun. cbn zeta in Hrun.
  set (q := get_to_queue (committed c) req ids now) in *.
  eexists _, _. split; [exact Hrun|]. cbn [txn committed].
  rewrite projection_ids. split_and!.
  - done.
  - apply selected_NoDup.
  - apply selected_ids.
  - intros id Hin Hnf.
    pose proof (to_queue_not_found _ _ _ now _ Hin Hnf) as Hq. fold q in Hq.
    destruct q as [|i q'] eqn:Eq; [by apply elem_of_nil in Hq|].
    cbn [games__bundle]. rewrite foldl_queue_upsert_lookup.
    rewrite decide_True by done. split.
    + eexists. split; [done|]. by destruct (games__bundle (committed c) !! id).
    + by intros ->.
  - by destruct q.
  - by destruct q.
Qed.

Lemma selected_filters req1 req2 t ids :
  included req1 "name" = included req2 "name" →
  included req1 "removed" = included req2 "removed" →
  selected t req1 ids = selected t req2 ids.
Proof.
  unfold selected, included.
  destruct (shape_cases (params_filters req1)) as (n1 & r1 & a1 & ->).
  destruct (shape_cases (params_filters req2)) as (n2 & r2 & a2 & ->).
  destruct (shape_of_has n1 r1 a1) as (-> & -> & _).
  destruct (shape_of_has n2 r2 a2) as (-> & -> & _).
  by intros -> ->.
Qed.

(** C4, as amended. For a fixed store state and identifier list, two
    calls to [get] whose valid filters include the same ones of the
    fields name and removed mark the same identifiers for requeue and
    perform the same queue write; whether apps is included makes no
    difference. *)
Theorem get_queue_same_filters req1 req2 ids now c :
  healthy c → valid_filters req1 → valid_filters req2 → ids ≠ [] →
  included req1 "name" = included req2 "name" →
  included req1 "removed" = included req2 "removed" →
  ∃ bundles1 c1 bundles2 c2,
    get' req1 ids now c = (inr bundles1, c1)
    ∧ get' req2 ids now c = (inr bundles2, c2)
    ∧ Forall2 (λ b1 b2,
         Projection.bundle_id b1 = Projection.bundle_id b2
         ∧ Projection.queued_for_update b1 = Projection.queued_for_update b2)
        bundles1 bundles2
    ∧ queue_writes (log c1) = queue_writes (log c2)
    ∧ committed c1 = committed c2.
Proof.
  intros Hc Hv1 Hv2 Hids Hn Hr.
  pose proof (get_run req1 ids now c Hc Hv1 Hids) as Hrun1.
  pose proof (get_run req2 ids now c Hc Hv2 Hids) as Hrun2.
  cbn zeta in Hrun1, Hrun2.
  assert (Hq : get_to_queue (committed c) req1 ids now
               = get_to_queue (committed c) req2 ids now).
  { unfold get_to_queue. by rewrite (selected_filters req1 req2). }
  rewrite Hq in Hrun1.
  eexists _, _, _, _. split; [exact Hrun1|]. split; [exact Hrun2|].
  cbn [log committed]. split_and!.
  - rewrite (selected_filters req1 req2) by done.
    apply Forall2_fmap, Forall_Forall2_diag, Forall_forall. done.
  - by rewrite !queue_writes_app, !queue_writes_get_statements.
  - done.
Qed.

(** *** Rules of the program logic *)

Lemma hoare_ret {A} (P : connection → Prop) (x : A) Q E :
  (∀ c, P c → Q x c) → hoare P (mret x) Q E.
Proof. intros H c Hc. by apply H. Qed.

Lemma hoare_throw {A} (P : connection → Prop) e (Q : A → _) (E : error → _) :
  (∀ c, P c → E e c) → hoare P (throw e) Q E.
Proof. intros H c Hc. by apply H. Qed.

Lemma hoare_bind {A B} P (m : M A) (f : A → M B) R Q E :
  hoare P m R E → (∀ x, hoare (R x) (f x) Q E) → hoare P (m ≫= f) Q E.
Proof.
  intros Hm Hf c Hc. specialize (Hm c Hc). unfold mbind, M_bind.
  destruct (m c) as [[e|x] c']; [done|]. by apply Hf.
Qed.

Lemma hoare_try_catch {A} P (body : M A) handler Q E1 E :
  hoare P body Q E1 → (∀ e, hoare (E1 e) (handler e) Q E) →
  hoare P (try_catch body handler) Q E.
Proof.
  intros Hb Hh c Hc. specialize (Hb c Hc). unfold try_catch.
  destruct (body c) as [[e|x] c']; [by apply Hh|done].
Qed.

Lemma hoare_conseq {A} (P P' : connection → Prop) (m : M A)
    (Q Q' : A → connection → Prop) (E E' : error → connection → Prop) :
  hoare P' m Q' E' → (∀ c, P c → P' c) →
  (∀ x c, Q' x c → Q x c) → (∀ e c, E' e c → E e c) → hoare P m Q E.
Proof.
  intros Hm HP HQ HE c Hc. specialize (Hm c (HP c Hc)).
  destruct (m c) as [[e|x] c']; eauto.
Qed.

Lemma hoare_if {A} (b : bool) P (m1 m2 : M A) Q E :
  hoare P m1 Q E → hoare P m2 Q E → hoare P (if b then m1 else m2) Q E.
Proof. by destruct b. Qed.

(** *** The frame of [get] *)

Lemma frame_refl t : frame t t.
Proof. split; [|done]. intros id [rm lu q] H. by exists q. Qed.

Lemma frame_queue_upsert t0 t q :
  frame t0 t →
  frame t0 (Tables (foldl queue_upsert' (games__bundle t) q)
              (games__bundle_name t) (games__bundle_app t)).
Proof.
  intros (Hb & Hn & Ha). split; [|done].
  intros id rec Hrec. destruct (Hb id rec Hrec) as [qu Hqu]. simpl.
  rewrite foldl_queue_upsert_lookup, Hqu. case_decide; eauto.
Qed.

Lemma frame_run t0 lg0 s :
  get_statement s →
  hoare (frame_inv t0 lg0) (Pool_query' s)
    (λ _, frame_inv t0 lg0) (λ _, frame_inv t0 lg0).
Proof.
  intros Hs [t tx lg fs] (Hc & Hv & sent & Hlog & Hsent).
  simpl in Hlog. subst lg.
  assert (Hlog' : ∃ sent', (lg0 ++ sent) ++ [s] = lg0 ++ sent'
                           ∧ Forall get_statement sent').
  { exists (sent ++ [s]). split; [by rewrite app_assoc|].
    apply Forall_app. split; [done|]. by constructor. }
  unfold Pool_query, next_fault. cbn [faults].
  assert (Hrun : ∀ t1, frame t0 t1 →
            match run' s t1 with
            | Some (t', _) => frame t0 t'
            | None => True
            end).
  { intros t1 Ht1. destruct Hs as [Hro|[q ->]].
    - destruct s; try done; simpl.
      + destruct ids; [done|]. by destruct (_ && _).
      + by destruct ids.
    - simpl. destruct q; [done|]. by apply frame_queue_upsert. }
  destruct fs as [|[] fs]; cbn [record committed txn log faults visible];
    try (split_and!; done).
  all: unfold visible in *; cbn [txn committed] in *.
  all: destruct tx as [w|]; cbn [txn committed].
  all: match goal with
       | |- context [run default_removed default_last_update ?s1 ?t1] =>
           specialize (Hrun t1); destruct (run default_removed default_last_update s1 t1) as [[t' rs]|]
       end.
  all: unfold frame_inv, visible, set_visible; cbn [txn committed log];
    split_and!; auto.
Qed.

Lemma frame_inv_log lg0 c s :
  get_statement s →
  (∃ sent, log c = lg0 ++ sent ∧ Forall get_statement sent) →
  ∃ sent, log c ++ [s] = lg0 ++ sent ∧ Forall get_statement sent.
Proof.
  intros Hs (sent & -> & Hsent). exists (sent ++ [s]).
  split; [by rewrite app_assoc|]. apply Forall_app. split; [done|by constructor].
Qed.

Lemma frame_begin t0 lg0 :
  hoare (frame_inv t0 lg0) Pool_beginTransaction
    (λ _, frame_inv t0 lg0) (λ _, frame_inv t0 lg0).
Proof.
  intros [t tx lg fs] (Hc & Hv & Hlog).
  apply (frame_inv_log _ _ BEGIN) in Hlog; [|by left].
  unfold Pool_beginTransaction, next_fault. cbn [faults].
  destruct fs as [|[] fs]; by split_and!.
Qed.

Lemma frame_commit t0 lg0 :
  hoare (frame_inv t0 lg0) Pool_commit
    (λ _, frame_inv t0 lg0) (λ _, frame_inv t0 lg0).
Proof.
  intros [t tx lg fs] (Hc & Hv & Hlog).
  apply (frame_inv_log _ _ COMMIT) in Hlog; [|by left].
  unfold Pool_commit, next_fault. cbn [faults].
  destruct fs as [|[] fs]; by split_and!.
Qed.

Lemma frame_rollback t0 lg0 :
  hoare (frame_inv t0 lg0) Pool_rollback
    (λ _, frame_inv t0 lg0) (λ _, frame_inv t0 lg0).
Proof.
  intros [t tx lg fs] (Hc & Hv & Hlog).
  apply (frame_inv_log _ _ ROLLBACK) in Hlog; [|by left].
  by split_and!.
Qed.

Lemma frame_transaction {A} t0 lg0 (callback : M A) :
  hoare (frame_inv t0 lg0) callback
    (λ _, frame_inv t0 lg0) (λ _, frame_inv t0 lg0) →
  hoare (frame_inv t0 lg0) (Pool_transaction callback)
    (λ _, frame_inv t0 lg0) (λ _, frame_inv t0 lg0).
Proof.
  intros Hcb. unfold Pool_transaction.
  eapply hoare_bind; [apply frame_begin|]. intros ?; cbn beta.
  eapply hoare_try_catch with (E1 := λ _, frame_inv t0 lg0).
  - eapply hoare_bind; [apply Hcb|]. intros ?; cbn beta.
    eapply hoare_bind; [apply frame_commit|]. intros ?; cbn beta.
    by apply hoare_ret.
  - intros e. eapply hoare_bind; [apply frame_rollback|]. intros ?; cbn beta.
    by apply hoare_throw.
Qed.

Lemma frame_get t0 lg0 req ids now :
  hoare (frame_inv t0 lg0) (get' req ids now)
    (λ _, frame_inv t0 lg0) (λ _, frame_inv t0 lg0).
Proof.
  unfold get.
  eapply hoare_bind with (R := λ _, frame_inv t0 lg0).
  { unfold validateParams. destruct (Regex.full_match _ _);
      [by apply hoare_ret|by apply hoare_throw]. }
  intros ?; cbn beta. destruct (shape (params_filters req)) as [columns filters].
  eapply hoare_bind with (R := λ _, frame_inv t0 lg0).
  { eapply hoare_bind; [apply frame_run; by left|]. intros rs; cbn beta.
    by apply hoare_ret. }
  intros rows.
  eapply hoare_bind with (R := λ _, frame_inv t0 lg0).
  { apply hoare_if; [|by apply hoare_ret].
    eapply hoare_bind; [apply frame_run; by left|]. intros rs; cbn beta.
    by apply hoare_ret. }
  intros appMap.
  destruct (get_loop formatDate filters appMap now rows)
    as [[bundles found] to_queue].
  eapply hoare_bind with (R := λ _, frame_inv t0 lg0).
  { apply hoare_if; [|by apply hoare_ret].
    apply frame_transaction.
    eapply hoare_bind; [apply frame_run; right; by eexists|]. intros rs; cbn beta.
    by apply hoare_ret. }
  intros ?; cbn beta. by apply hoare_ret.
Qed.

(** C9. [get] never changes the [last_update] column of a stored row:
    whatever the outcome of the call, every row of the primary table
    that existed before is still there with the same identifier,
    [removed] and [last_update] (only [queued_for_update] may differ),
    the name and app tables are unchanged, and the only write statement
    sent is the queue write. *)
Theorem get_frame req ids now c :
  txn c = None →
  ∀ r c', get' req ids now c = (r, c') →
    (∀ id rec, games__bundle (committed c) !! id = Some rec →
       ∃ q, games__bundle (committed c') !! id
            = Some (BundleRecord (removed rec) (last_update rec) q))
    ∧ games__bundle_name (committed c') = games__bundle_name (committed c)
    ∧ games__bundle_app (committed c') = games__bundle_app (committed c)
    ∧ ∃ sent, log c' = log c ++ sent
              ∧ Forall (λ s, read_only s = true ∨ ∃ q, s = INSERT_bundle_queue q)
                  sent.
Proof.
  intros Hidle r c' Hget.
  pose proof (frame_get (committed c) (log c) req ids now c) as H.
  rewrite Hget in H.
  assert (Hinv : frame_inv (committed c) (log c) c).
  { split_and!.
    - apply frame_refl.
    - unfold visible. rewrite Hidle. apply frame_refl.
    - exists []. by rewrite app_nil_r. }
  specialize (H Hinv).
  assert (Hc' : frame_inv (committed c) (log c) c') by by destruct r.
  destruct Hc' as ((Hb & Hn & Ha) & _ & Hlog). done.
Qed.

(** *** [fetch] on a connection without pending failures *)

Lemma length_pos_nonempty {A} (l : list A) :
  (0 <? Z.of_nat (length l)) = match l with [] => false | _ => true end.
Proof. by destruct l. Qed.

Lemma fetch_healthy bundleId now c :
  healthy c →
  let resp := upstream (store_url bundleId) in
  fetch' bundleId now c =
    match html resp with
    | None => (inl (CustomError COMMON_MESSAGES_steam 500), c)
    | Some page =>
        if existsb is_nan (page_apps bundleId resp page)
        then (inl (StoreError
                     (INSERT_IGNORE_bundle_app bundleId
                        (page_apps bundleId resp page))),
              Connection (committed c) None
                (log c ++ fetch_writes bundleId now resp page ++ [ROLLBACK]) [])
        else (inr (),
              Connection (fetch_tables bundleId now resp page (committed c)) None
                (log c ++ fetch_writes bundleId now resp page ++ [COMMIT]) [])
    end.
Proof.
  intros [Ht Hf] resp. destruct c as [t tx lg fs]. simpl in Ht, Hf. subst tx fs.
  unfold fetch, Request_get. fold (store_url bundleId). fold resp.
  unfold mbind at 1. unfold M_bind, mret, M_ret.
  destruct (html resp) as [page|]; [|done].
  unfold fetch_tables, fetch_writes, page_apps, page_name, page_usable, page_removed.
  set (usable := bool_decide _ && negb (negb _)).
  set (apps := if usable then _ else _).
  set (nm := if usable then _ else _).
  rewrite length_pos_nonempty.
  unfold Pool_beginTransaction, try_catch, Pool_commit, Pool_rollback, throw,
    mbind, M_bind, mret, M_ret, next_fault.
  cbn [faults record visible txn committed log].
  rewrite Pool_query_nofault by done.
  cbn [run visible txn committed set_visible record log faults
       games__bundle games__bundle_name games__bundle_app].
  destruct (truthy_opt nm).
  - rewrite Pool_query_nofault by done.
    cbn [run visible txn committed set_visible record log faults
         games__bundle games__bundle_name games__bundle_app].
    destruct apps as [|a apps'] eqn:Happs.
    + cbn. by rewrite <- !app_assoc.
    + rewrite Pool_query_nofault by done.
      cbn [run visible txn committed set_visible record log faults
           games__bundle games__bundle_name games__bundle_app].
      destruct (existsb is_nan (a :: apps')); cbn; by rewrite <- !app_assoc.
  - destruct apps as [|a apps'] eqn:Happs.
    + cbn. by rewrite <- !app_assoc.
    + rewrite Pool_query_nofault by done.
      cbn [run visible txn committed set_visible record log faults
           games__bundle games__bundle_name games__bundle_app].
      destruct (existsb is_nan (a :: apps')); cbn; by rewrite <- !app_assoc.
Qed.

Lemma insert_ignore_name_idem (m : gmap Z string) k n :
  insert_ignore_name (insert_ignore_name m k n) k n = insert_ignore_name m k n.
Proof.
  unfold insert_ignore_name. destruct (m !! k) eqn:E.
  - by rewrite E.
  - by rewrite lookup_insert_eq.
Qed.

Lemma fetch_tables_again bundleId now1 now2 resp page t :
  let t1 := fetch_tables bundleId now1 resp page t in
  let t2 := fetch_tables bundleId now2 resp page t1 in
  games__bundle_name t2 = games__bundle_name t1
  ∧ games__bundle_app t2 = games__bundle_app t1
  ∧ games__bundle t1 !! bundleId
    = Some (BundleRecord (page_removed bundleId resp) now1 false)
  ∧ games__bundle t2 !! bundleId
    = Some (BundleRecord (page_removed bundleId resp) now2 false)
  ∧ ∀ k, k ≠ bundleId → games__bundle t2 !! k = games__bundle t1 !! k.
Proof.
  unfold fetch_tables. cbn [games__bundle games__bundle_name games__bundle_app].
  split_and!.
  - destruct (truthy_opt _); [apply insert_ignore_name_idem|done].
  - destruct (page_apps bundleId resp page); [done|].
    by rewrite (assoc_L (∪)), union_idemp_L.
  - apply lookup_insert_eq.
  - apply lookup_insert_eq.
  - intros k Hk. by rewrite !lookup_insert_ne.
Qed.

(** C5. Calling [fetch] twice in a row for the same identifier against
    an unchanged upstream page leaves the same stored record: when the
    first call has succeeded, the second call succeeds too, the name
    table and the set of app pairs are the same after both calls, the
    primary row has the same [removed] and [queued_for_update = false]
    after both, and only its [last_update] advances; the other primary
    rows are the same as well. *)
Theorem fetch_twice bundleId now1 now2 c c1 :
  healthy c →
  fetch' bundleId now1 c = (inr (), c1) →
  ∃ c2 rm,
    fetch' bundleId now2 c1 = (inr (), c2)
    ∧ games__bundle_name (committed c2) = games__bundle_name (committed c1)
    ∧ games__bundle_app (committed c2) = games__bundle_app (committed c1)
    ∧ games__bundle (committed c1) !! bundleId = Some (BundleRecord rm now1 false)
    ∧ games__bundle (committed c2) !! bundleId = Some (BundleRecord rm now2 false)
    ∧ ∀ k, k ≠ bundleId →
        games__bundle (committed c2) !! k = games__bundle (committed c1) !! k.
Proof.
  intros Hc H1. rewrite (fetch_healthy bundleId now1 c Hc) in H1. cbn zeta in H1.
  set (resp := upstream (store_url bundleId)) in *.
  destruct (html resp) as [page|] eqn:Hpage; [|done].
  destruct (existsb is_nan (page_apps bundleId resp page)) eqn:Hnan; [done|].
  injection H1 as <-.
  eexists _, (page_removed bundleId resp).
  rewrite fetch_healthy by done. cbn zeta. fold resp. rewrite Hpage, Hnan.
  split; [reflexivity|]. cbn [committed].
  apply fetch_tables_again.
Qed.

(** C6, as amended. [fetch] against a page whose final URL no longer
    matches the page pattern of the bundle stores the primary row with
    [removed = true] and [queued_for_update = false], adds no name row
    and no app pair, and leaves the name rows and app pairs that were
    stored before the call as they were. *)
Theorem fetch_redirected bundleId now c page :
  healthy c →
  html (upstream (store_url bundleId)) = Some page →
  Regex.search (bundle_url_regex bundleId)
    (url (upstream (store_url bundleId))) = false →
  ∃ c',
    fetch' bundleId now c = (inr (), c')
    ∧ games__bundle (committed c') !! bundleId = Some (BundleRecord true now false)
    ∧ games__bundle_name (committed c') = games__bundle_name (committed c)
    ∧ games__bundle_app (committed c') = games__bundle_app (committed c)
    ∧ ∀ k, k ≠ bundleId →
        games__bundle (committed c') !! k = games__bundle (committed c) !! k.
Proof.
  intros Hc Hpage Hurl.
  rewrite fetch_healthy by done. cbn zeta. rewrite Hpage.
  unfold fetch_tables, page_name, page_apps, page_usable, page_removed.
  rewrite Hurl, andb_false_r. cbn [existsb truthy_opt].
  eexists. split; [reflexivity|]. cbn [committed games__bundle
    games__bundle_name games__bundle_app negb].
  split_and!; try done.
  - apply lookup_insert_eq.
  - intros k Hk. by rewrite lookup_insert_ne.
Qed.

(** *** Failing executions of [fetch] *)

Lemma in_txn_query t0 s :
  hoare (in_txn t0) (Pool_query' s)
    (λ _, in_txn t0) (λ e c, in_txn t0 c ∧ e = StoreError s ∧ s ∈ log c).
Proof.
  intros [t tx lg fs] [Ht [w Hw]]. simpl in Ht, Hw. subst t tx.
  assert (Hin : s ∈ lg ++ [s]) by (apply elem_of_app; right; left).
  unfold Pool_query, next_fault. cbn [faults].
  destruct fs as [|[] fs]; cbn [record visible txn committed log faults].
  - destruct (run' s w) as [[t' rs]|]; unfold in_txn; cbn; eauto.
  - unfold in_txn; cbn; eauto.
  - destruct (run' s w) as [[t' rs]|]; unfold in_txn; cbn; eauto.
Qed.

Lemma in_txn_commit t0 :
  hoare (in_txn t0) Pool_commit
    (λ _ _, True) (λ e c, in_txn t0 c ∧ e = StoreError COMMIT ∧ COMMIT ∈ log c).
Proof.
  intros [t tx lg fs] [Ht [w Hw]]. simpl in Ht, Hw. subst t tx.
  assert (Hin : COMMIT ∈ lg ++ [COMMIT]) by (apply elem_of_app; right; left).
  unfold Pool_commit, next_fault. cbn [faults].
  destruct fs as [|[] fs]; by cbn [record visible txn committed log faults].
Qed.

(** Without page content [fetch] raises the service error and leaves the
    connection as it was; every failing execution leaves the committed
    tables as they were and no transaction open. *)
Lemma fetch_failing_executions bundleId now c :
  txn c = None →
  (html (upstream (store_url bundleId)) = None →
     fetch' bundleId now c = (inl (CustomError COMMON_MESSAGES_steam 500), c))
  ∧ ∀ e c', fetch' bundleId now c = (inl e, c') →
      committed c' = committed c
      ∧ txn c' = None
      ∧ (is_Some (html (upstream (store_url bundleId))) →
         ∃ s, e = StoreError s
              ∧ (s = BEGIN ∨ last (log c') = Some ROLLBACK)).
Proof.
  intros Hidle. split.
  { intros Hnone. unfold fetch, Request_get. fold (store_url bundleId).
    unfold mbind at 1. unfold M_bind, mret, M_ret. by rewrite Hnone. }
  intros e c' Hfetch.
  unfold fetch, Request_get in Hfetch. fold (store_url bundleId) in Hfetch.
  unfold mbind at 1 in Hfetch. unfold M_bind at 1, mret at 1, M_ret at 1 in Hfetch.
  destruct (html (upstream (store_url bundleId))) as [page|].
  2: { injection Hfetch as <- <-. split_and!; [done|done|]. by intros [? ?]. }
  match type of Hfetch with
  | context [try_catch ?b ?h] =>
      set (body := b) in Hfetch; set (handler := h) in Hfetch
  end.
  assert (Hbody : hoare (in_txn (committed c)) body (λ _ _, True)
            (λ e c1, in_txn (committed c) c1 ∧ ∃ s, e = StoreError s)).
  { subst body.
    eapply hoare_bind with (R := λ _, in_txn (committed c)).
    { eapply hoare_conseq; [apply in_txn_query|done|done|].
      intros e0 c0 (? & -> & _); eauto. }
    intros ?; cbn beta.
    eapply hoare_bind with (R := λ _, in_txn (committed c)).
    { apply hoare_if; [|by apply hoare_ret].
      eapply hoare_bind with (R := λ _, in_txn (committed c));
        [|intros ?; by apply hoare_ret].
      eapply hoare_conseq; [apply in_txn_query|done|done|].
      intros e0 c0 (? & -> & _); eauto. }
    intros ?; cbn beta.
    eapply hoare_bind with (R := λ _, in_txn (committed c)).
    { apply hoare_if; [|by apply hoare_ret].
      eapply hoare_bind with (R := λ _, in_txn (committed c));
        [|intros ?; by apply hoare_ret].
      eapply hoare_conseq; [apply in_txn_query|done|done|].
      intros e0 c0 (? & -> & _); eauto. }
    intros ?; cbn beta.
    eapply hoare_conseq; [apply in_txn_commit|done|done|].
    intros e0 c0 (? & -> & _); eauto. }
  unfold mbind, M_bind in Hfetch.
  destruct c as [t tx lg fs]. simpl in Hidle. subst tx.
  unfold Pool_beginTransaction, next_fault in Hfetch. cbn [faults] in Hfetch.
  assert (Htry : ∀ c0, in_txn t c0 →
            try_catch body handler c0 = (inl e, c') →
            committed c' = t ∧ txn c' = None
            ∧ ∃ s, e = StoreError s ∧ last (log c') = Some ROLLBACK).
  { intros c0 Hc0. unfold try_catch. specialize (Hbody c0 Hc0).
    destruct (body c0) as [[e0|[]] c1]; [|done].
    destruct Hbody as [[Hcm _] [s ->]].
    subst handler. unfold Pool_rollback, throw, mbind, M_bind.
    intros [= <- <-]. cbn [committed txn log].
    split_and!; [done|done|]. exists s. split; [done|]. apply last_snoc. }
  destruct fs as [|[] fs]; cbn [record visible txn committed log faults] in Hfetch.
  - apply Htry in Hfetch; [|split; [done|by eexists]].
    destruct Hfetch as (? & ? & s & -> & ?). eauto 10.
  - injection Hfetch as <- <-. split_and!; [done|done|]. intros _.
    exists BEGIN. by split; [|left].
  - apply Htry in Hfetch; [|split; [done|by eexists]].
    destruct Hfetch as (? & ? & s & -> & ?). eauto 10.
Qed.

(** The first store operation of the transaction that reports a failure
    makes [fetch] fail with the error of that operation. *)
Lemma fetch_failing_step bundleId now c page k s :
  txn c = None →
  html (upstream (store_url bundleId)) = Some page →
  fetch_steps bundleId now (upstream (store_url bundleId)) page !! k = Some s →
  faults c !! k = Some true →
  (∀ j, (j < k)%nat → faults c !! j = Some false) →
  (s = COMMIT →
   existsb is_nan (page_apps bundleId (upstream (store_url bundleId)) page)
   = false) →
  ∃ c', fetch' bundleId now c = (inl (StoreError s), c')
    ∧ committed c' = committed c ∧ txn c' = None
    ∧ log c'
      = log c
        ++ take (S k) (fetch_steps bundleId now (upstream (store_url bundleId)) page)
        ++ match k with O => [] | S _ => [ROLLBACK] end.
Proof.
  intros Hidle Hpage Hs Hk Hbefore Hnan.
  unfold fetch, Request_get. fold (store_url bundleId).
  unfold mbind at 1. unfold M_bind at 1, mret at 1, M_ret at 1. rewrite Hpage.
  unfold fetch_steps, fetch_writes, page_apps, page_name, page_usable,
    page_removed in *.
  set (resp := upstream (store_url bundleId)) in *.
  set (usable := bool_decide (is_Some (pageheader page))
                 && negb (negb (Regex.search (bundle_url_regex bundleId) (url resp))))
    in *.
  set (nm := if usable then pageheader page else None) in *.
  set (apps := if usable then JsString.parseInt <$> ds_appids page else []) in *.
  clearbody apps nm. clear usable.
  destruct c as [t tx lg fs]. cbn [txn faults committed log] in *. subst tx.
  assert (Hf : ∀ j b, fs !! j = Some b → (j < k)%nat → b = false).
  { intros j b Hj Hlt. specialize (Hbefore j Hlt). congruence. }
  clear Hbefore.
  destruct (truthy_opt nm) eqn:Hnm; destruct apps as [|a apps];
    cbn [app length] in Hs |- *.
  all: repeat match type of Hs with
       | _ !! ?k = Some _ =>
           is_var k; destruct k as [|k]; cbn [lookup list_lookup] in Hs
       end.
  all: try discriminate Hs.
  all: try (injection Hs as <-).
  all: cbn [lookup list_lookup] in Hk.
  all: repeat match goal with
       | Hk : ?l !! O = Some true |- _ =>
           destruct l as [|? ?]; [discriminate Hk|];
           cbn [lookup list_lookup] in Hk; injection Hk as ->
       | Hk : ?l !! (S ?n) = Some true,
         Hf : ∀ j b, ?l !! j = Some b → (j < S (S ?m))%nat → b = false |- _ =>
           destruct l as [|b0 l]; [discriminate Hk|];
           pose proof (Hf O b0 eq_refl ltac:(lia)) as ->;
           cbn [lookup list_lookup] in Hk;
           let Hf' := fresh "Hf" in
           assert (Hf' : ∀ j b, l !! j = Some b → (j < S m)%nat → b = false)
             by (intros j b' ? ?; apply (Hf (S j) b'); [done|lia]);
           clear Hf
       | Hk : ?l !! (S ?n) = Some true,
         Hf : ∀ j b, ?l !! j = Some b → (j < 1)%nat → b = false |- _ =>
           destruct l as [|b0 l]; [discriminate Hk|];
           pose proof (Hf O b0 eq_refl ltac:(lia)) as ->;
           cbn [lookup list_lookup] in Hk; clear Hf
       end.
  all: try change (0 <? Z.of_nat (length (a :: apps))) with true.
  all: try change (0 <? Z.of_nat (length (@nil (option Z)))) with false.
  all: try rewrite Hnm.
  all: unfold mbind, M_bind, mret, M_ret, try_catch, throw, Pool_query,
         Pool_beginTransaction, Pool_commit, Pool_rollback, next_fault, record,
         set_visible, visible;
       cbn [txn committed log faults run fst snd].
  all: try (rewrite (Hnan eq_refl)).
  all: cbn [txn committed log faults run fst snd].
  all: eexists; split; [reflexivity|]; cbn [txn committed log faults take app];
       split_and!; try reflexivity.
  all: rewrite <- ?(assoc_L (++)); reflexivity.
Qed.

Lemma next_fault_none c :
  faults c !! O ≠ Some true →
  next_fault c
  = (false, Connection (committed c) (txn c) (log c) (tail (faults c))).
Proof. destruct c as [? ? ? [|[] ?]]; done. Qed.

(** An app identifier that is not a number makes the store refuse the
    insertion of the app pairs. *)
Lemma fetch_refused_apps bundleId now c page :
  txn c = None →
  html (upstream (store_url bundleId)) = Some page →
  existsb is_nan (page_apps bundleId (upstream (store_url bundleId)) page)
  = true →
  (∀ j, (j < length (fetch_writes bundleId now
                       (upstream (store_url bundleId)) page))%nat →
        faults c !! j ≠ Some true) →
  ∃ c', fetch' bundleId now c
        = (inl (StoreError
                  (INSERT_IGNORE_bundle_app bundleId
                     (page_apps bundleId (upstream (store_url bundleId)) page))),
           c')
    ∧ committed c' = committed c ∧ txn c' = None
    ∧ log c'
      = log c
        ++ fetch_writes bundleId now (upstream (store_url bundleId)) page
        ++ [ROLLBACK].
Proof.
  intros Hidle Hpage Hnan Hno.
  unfold fetch, Request_get. fold (store_url bundleId).
  unfold mbind at 1. unfold M_bind at 1, mret at 1, M_ret at 1. rewrite Hpage.
  unfold fetch_writes, page_apps, page_name, page_usable, page_removed in *.
  set (resp := upstream (store_url bundleId)) in *.
  set (usable := bool_decide (is_Some (pageheader page))
                 && negb (negb (Regex.search (bundle_url_regex bundleId) (url resp))))
    in *.
  set (nm := if usable then pageheader page else None) in *.
  set (apps := if usable then JsString.parseInt <$> ds_appids page else []) in *.
  clearbody apps nm. clear usable.
  destruct c as [t tx lg fs]. cbn [txn faults committed log] in *. subst tx.
  destruct apps as [|a apps]; [discriminate Hnan|].
  change (0 <? Z.of_nat (length (a :: apps))) with true.
  destruct (truthy_opt nm) eqn:Hnm; cbn [app length] in Hno |- *.
  all: unfold mbind, M_bind, mret, M_ret, try_catch, throw, Pool_query,
         Pool_beginTransaction, Pool_commit, Pool_rollback, record,
         set_visible, visible.
  all: repeat (rewrite next_fault_none;
               [|cbn [faults]; rewrite ?lookup_tail; apply Hno; lia];
               cbn [txn committed log faults run fst snd]).
  all: rewrite Hnan.
  all: eexists; split; [reflexivity|]; cbn [txn committed log faults app];
       split_and!; try reflexivity.
  all: rewrite <- ?(assoc_L (++)); reflexivity.
Qed.

(** C8. [fetch] is error-atomic. (1) When the HTTP request produced no
    content, [fetch] raises the service error without any store access:
    the connection is as it was. (2) In every failing execution the
    committed tables are those before the call and no transaction is left
    open; when the page had content the error is a store error, and
    unless it comes from the opening of the transaction, the rollback was
    sent last. (3) When the page had content and the store reports a
    failure for one of the operations of the transaction (the opening,
    the upsert of the bundle row, the insertion of the name, the
    insertion of the app pairs, the commit), the operations before it
    having succeeded, [fetch] fails: it raises the error of exactly that
    operation, nothing is sent after it but the rollback (no rollback
    when the opening itself failed), the committed tables are those
    before the call and no transaction is left open. (4) The same holds
    when the store refuses the insertion of the app pairs because a
    scraped identifier is not a number. *)
Theorem fetch_error_atomic bundleId now c :
  txn c = None →
  (html (upstream (store_url bundleId)) = None →
     fetch' bundleId now c = (inl (CustomError COMMON_MESSAGES_steam 500), c))
  ∧ (∀ e c', fetch' bundleId now c = (inl e, c') →
       committed c' = committed c
       ∧ txn c' = None
       ∧ (is_Some (html (upstream (store_url bundleId))) →
          ∃ s, e = StoreError s
               ∧ (s = BEGIN ∨ last (log c') = Some ROLLBACK)))
  ∧ (∀ page k s,
       html (upstream (store_url bundleId)) = Some page →
       fetch_steps bundleId now (upstream (store_url bundleId)) page !! k
       = Some s →
       faults c !! k = Some true →
       (∀ j, (j < k)%nat → faults c !! j = Some false) →
       (s = COMMIT →
        existsb is_nan
          (page_apps bundleId (upstream (store_url bundleId)) page) = false) →
       ∃ c', fetch' bundleId now c = (inl (StoreError s), c')
         ∧ committed c' = committed c ∧ txn c' = None
         ∧ log c'
           = log c
             ++ take (S k)
                  (fetch_steps bundleId now (upstream (store_url bundleId)) page)
             ++ match k with O => [] | S _ => [ROLLBACK] end)
  ∧ (∀ page,
       html (upstream (store_url bundleId)) = Some page →
       existsb is_nan
         (page_apps bundleId (upstream (store_url bundleId)) page) = true →
       (∀ j, (j < length (fetch_writes bundleId now
                            (upstream (store_url bundleId)) page))%nat →
             faults c !! j ≠ Some true) →
       ∃ c', fetch' bundleId now c
             = (inl (StoreError
                       (INSERT_IGNORE_bundle_app bundleId
                          (page_apps bundleId
                             (upstream (store_url bundleId)) page))),
                c')
         ∧ committed c' = committed c ∧ txn c' = None
         ∧ log c'
           = log c
             ++ fetch_writes bundleId now (upstream (store_url bundleId)) page
             ++ [ROLLBACK]).
Proof.
  intros Hidle.
  destruct (fetch_failing_executions bundleId now c Hidle) as [Hnone Hfail].
  split; [exact Hnone|]. split; [exact Hfail|]. split.
  - intros page k s. by apply fetch_failing_step.
  - intros page. by apply fetch_refused_apps.
Qed.

(** *** The apps field *)

Lemma elem_of_app_ids_of (t : gset (Z * Z)) id a :
  a ∈ app_ids_of t id ↔ (id, a) ∈ t.
Proof.
  unfold app_ids_of. rewrite list_elem_of_fmap. split.
  - intros ([i a'] & -> & Hin). apply list_elem_of_In, filter_In in Hin as [Hin Heq].
    apply Z.eqb_eq in Heq. simpl in Heq. subst i.
    by apply elem_of_elements, list_elem_of_In.
  - intros Hin. exists (id, a). split; [done|].
    apply list_elem_of_In, filter_In. split.
    + by apply list_elem_of_In, elem_of_elements.
    + apply Z.eqb_refl.
Qed.

Lemma getQueryMap_lookup (f : Z → app_row) (groups : list Z) id :
  (∀ i, app_row_bundle_id (f i) = i) →
  getQueryMap (f <$> groups) !! id
  = if decide (id ∈ groups) then Some (f id) else None.
Proof.
  intros Hf. unfold getQueryMap.
  assert (G : ∀ l (m : gmap Z app_row),
    foldl (λ m r, <[app_row_bundle_id r := r]> m) m (f <$> l) !! id
    = if decide (id ∈ l) then Some (f id) else m !! id).
  { induction l as [|i l IH]; intros m; cbn [fmap list_fmap foldl].
    - rewrite decide_False; [done|]. by intros ?%elem_of_nil.
    - rewrite IH, Hf. destruct (decide (id ∈ l)) as [Hin|Hnin].
      + by rewrite decide_True by by right.
      + destruct (decide (id = i)) as [->|Hne].
        * rewrite decide_True by left. by rewrite lookup_insert_eq.
        * rewrite lookup_insert_ne by done.
          rewrite decide_False; [done|]. by intros [?|?]%elem_of_cons. }
  by rewrite G.
Qed.

(** The apps of a projection are the stored app identifiers of the
    bundle, each parsed back to an integer. *)
Lemma parse_apps_stored (t : gset (Z * Z)) ids id :
  id ∈ ids →
  parse_apps (getQueryMap (select_apps t ids)) id = Some <$> app_ids_of t id.
Proof.
  intros Hin. unfold parse_apps, select_apps.
  rewrite (getQueryMap_lookup (λ i, AppRow i (GROUP_CONCAT (app_ids_of t i))))
    by done.
  destruct (app_ids_of t id) as [|a l] eqn:Happs.
  - rewrite decide_False; [done|].
    rewrite elem_of_remove_dups. intros Hg.
    apply list_elem_of_In, filter_In in Hg as [Hg _].
    apply list_elem_of_In, list_elem_of_fmap in Hg as ([i a] & -> & Hg).
    apply elem_of_elements, elem_of_app_ids_of in Hg. cbn [fst] in Happs.
    rewrite Happs in Hg. by apply elem_of_nil in Hg.
  - rewrite decide_True.
    + cbn [app_row_apps]. unfold GROUP_CONCAT. by apply parse_group_concat.
    + rewrite elem_of_remove_dups. apply list_elem_of_In, filter_In. split.
      * apply list_elem_of_In, list_elem_of_fmap. exists (id, a). split; [done|].
        apply elem_of_elements, elem_of_app_ids_of. rewrite Happs. left.
      * by apply includes_id_elem.
Qed.

(** C10. In [get], when apps is among the included fields, every
    returned projection has an apps field that is a list of integers
    (no [NaN]), namely the app identifiers stored for the bundle; for a
    bundle with no row in the app-membership table the field is present
    and is the empty list. *)
Theorem get_apps_field req ids now c :
  healthy c → valid_filters req → ids ≠ [] → included req "apps" = true →
  ∃ bundles c',
    get' req ids now c = (inr bundles, c')
    ∧ Forall (λ bundle,
         ∃ l : list Z,
           Projection.apps bundle = Some (Some <$> l)
           ∧ (∀ a, a ∈ l ↔
                (Projection.bundle_id bundle, a) ∈ games__bundle_app (committed c))
           ∧ ((∀ a, (Projection.bundle_id bundle, a) ∉ games__bundle_app (committed c))
              → Projection.apps bundle = Some []))
        bundles.
Proof.
  intros Hc Hv Hids Happs.
  pose proof (get_run req ids now c Hc Hv Hids) as Hrun. cbn zeta in Hrun.
  eexists _, _. split; [exact Hrun|].
  apply Forall_fmap, Forall_forall. intros row Hrow.
  apply elem_of_selected in Hrow as (_ & _ & Hin & _).
  unfold included in Happs.
  exists (app_ids_of (games__bundle_app (committed c)) (row_bundle_id row)).
  cbn [project Projection.apps Projection.bundle_id compose].
  unfold get_appMap, included. rewrite Happs.
  rewrite parse_apps_stored by done. split_and!.
  - done.
  - intros a. apply elem_of_app_ids_of.
  - intros Hnone. f_equal.
    destruct (app_ids_of _ _) as [|a l] eqn:E; [done|]. exfalso.
    apply (Hnone a), elem_of_app_ids_of. rewrite E. left.
Qed.

(** *** Validation of the filter string *)

(** C7, as amended. For every filters string that is not well formed,
    that is, not a sequence of vocabulary words each optionally followed
    by one comma (the pattern of the validator), such as "name,bogus",
    [get] fails validation with the message naming the allowed vocabulary
    and performs no store access: the connection and its log are returned
    unchanged. *)
Theorem get_invalid_filters req ids now c :
  ¬ filter_list (params_filters req) →
  get' req ids now c =
    (inl (ValidationError
            "Must be a comma-separated list containing the following values: name, removed, apps"),
     c).
Proof.
  intros Hbad. unfold get, validateParams.
  destruct (Regex.full_match _ _) eqn:Hv; [|done].
  by apply validator_filter_list in Hv.
Qed.

End Properties.

(** ** The theorems at sample inputs *)



Lemma get_requeue_nameless_witness :
  healthy sample_connection ∧ valid_filters (filters_req "removed")
  ∧ [2; 3] ≠ []
  ∧ ∃ bundles c',
      get false 0 sample_formatDate (filters_req "removed") [2; 3]
        (1000000 + 25 * 3600) sample_connection = (inr bundles, c').
Proof.
  split; [split; reflexivity|]. split; [reflexivity|]. split; [discriminate|].
  destruct (get_requeue_nameless false 0 sample_formatDate
              (filters_req "removed") [2; 3] (1000000 + 25 * 3600)
              sample_connection)
    as (rows & bundles & c' & sent & Hget & _);
    [split; reflexivity | reflexivity | discriminate |].
  exists bundles, c'. exact Hget.
Defined.

(** At 25 hours the nameless record that is not removed is queued, the
    removed one is not. *)
Example nameless_after_a_day :
  ∃ c',
    get false 0 sample_formatDate (filters_req "removed") [2; 3]
      (1000000 + 25 * 3600) sample_connection
    = (inr [Projection.Make 3 None (Some false) None "1000000000" true;
            Projection.Make 2 None (Some true) None "1000000000" false], c')
    ∧ queue_writes (log c') = [[3]].
Proof. eexists. split; [vm_compute; reflexivity|]. vm_compute. reflexivity. Qed.

(** C2 fails: two hours after its refresh, a record without a name that
    is not removed is returned unmarked and nothing is queued (filters
    "removed"); and when name is included (no filters) the record with
    [removed = true] is queued all the same, as an identifier without a
    returned row. *)
Lemma two_hours_old_not_requeued :
  (∃ c',
     get false 0 sample_formatDate (filters_req "removed") [3]
       two_hours_later sample_connection
     = (inr [Projection.Make 3 None (Some false) None "1000000000" false], c')
     ∧ queue_writes (log c') = []
     ∧ committed c' = sample_tables)
  ∧ (∃ c',
       get false 0 sample_formatDate no_filters [2]
         two_hours_later sample_connection = (inr [], c')
       ∧ queue_writes (log c') = [[2]]
       ∧ games__bundle (committed c') !! 2 = Some (BundleRecord true 1000000 true)).
Proof.
  split; eexists; (split; [vm_compute; reflexivity|]);
    split; vm_compute; reflexivity.
Qed.

Lemma get_known_and_omitted_witness :
  healthy sample_connection ∧ valid_filters no_filters ∧ [1; 4; 5] ≠ []
  ∧ ∃ bundles c',
      get false 0 sample_formatDate no_filters [1; 4; 5] two_hours_later
        sample_connection = (inr bundles, c')
      ∧ NoDup (Projection.bundle_id <$> bundles).
Proof.
  split; [split; reflexivity|]. split; [reflexivity|]. split; [discriminate|].
  destruct (get_known_and_omitted false 0 sample_formatDate no_filters
              [1; 4; 5] two_hours_later sample_connection)
    as (bundles & c' & Hget & _ & Hnd & _);
    [split; reflexivity | reflexivity | discriminate |].
  exists bundles, c'. split; [exact Hget | exact Hnd].
Defined.

(** C3 fails: identifier 5 is unknown at first; the first [get] writes its
    bare row, after which it is known to the store, and the second [get]
    still returns no projection for it. *)
Lemma known_bundle_without_projection :
  ∃ c1 c2,
    get false 0 sample_formatDate no_filters [5] two_hours_later
      sample_connection = (inr [], c1)
    ∧ games__bundle (committed c1) !! 5 = Some (BundleRecord false 0 true)
    ∧ get false 0 sample_formatDate no_filters [5] two_hours_later c1
      = (inr [], c2).
Proof.
  eexists _, _. split; [vm_compute; reflexivity|].
  split; vm_compute; reflexivity.
Qed.

Lemma get_queue_same_filters_witness :
  healthy sample_connection
  ∧ valid_filters (filters_req "name") ∧ valid_filters (filters_req "apps,name")
  ∧ [1; 4] ≠ []
  ∧ included (filters_req "name") "name" = included (filters_req "apps,name") "name"
  ∧ included (filters_req "name") "removed"
    = included (filters_req "apps,name") "removed"
  ∧ ∃ bundles1 c1 bundles2 c2,
      get false 0 sample_formatDate (filters_req "name") [1; 4]
        two_hours_later sample_connection = (inr bundles1, c1)
      ∧ get false 0 sample_formatDate (filters_req "apps,name") [1; 4]
          two_hours_later sample_connection = (inr bundles2, c2)
      ∧ committed c1 = committed c2.
Proof.
  split; [split; reflexivity|]. do 2 (split; [reflexivity|]).
  split; [discriminate|]. do 2 (split; [reflexivity|]).
  destruct (get_queue_same_filters false 0 sample_formatDate
              (filters_req "name") (filters_req "apps,name") [1; 4]
              two_hours_later sample_connection)
    as (b1 & c1 & b2 & c2 & H1 & H2 & _ & _ & Hc);
    [split; reflexivity | reflexivity | reflexivity | discriminate
     | reflexivity | reflexivity |].
  exists b1, c1, b2, c2. split; [exact H1|]. split; [exact H2 | exact Hc].
Defined.

(** C4 fails: on the same store and for the same identifier, the valid
    filters "name" and "apps" lead to different queue writes; with "name"
    the bare row 4 is not returned and 4 is queued, with "apps" it is
    returned as already queued and nothing is written. *)
Lemma filters_change_queue_write :
  valid_filters (filters_req "name") ∧ valid_filters (filters_req "apps")
  ∧ (∃ c',
       get false 0 sample_formatDate (filters_req "name") [4]
         two_hours_later sample_connection = (inr [], c')
       ∧ queue_writes (log c') = [[4]])
  ∧ (∃ c',
       get false 0 sample_formatDate (filters_req "apps") [4]
         two_hours_later sample_connection
       = (inr [Projection.Make 4 None None (Some []) "0" true], c')
       ∧ queue_writes (log c') = []).
Proof.
  split; [reflexivity|]. split; [reflexivity|].
  split; eexists; (split; [vm_compute; reflexivity|]); vm_compute; reflexivity.
Qed.

Lemma fetch_twice_witness :
  healthy sample_connection
  ∧ ∃ c1 c2,
      fetch false 0 bundle_page 42 2000000 sample_connection = (inr (), c1)
      ∧ fetch false 0 bundle_page 42 2000060 c1 = (inr (), c2)
      ∧ games__bundle_app (committed c2) = games__bundle_app (committed c1).
Proof.
  split; [split; reflexivity|].
  pose (r1 := fetch false 0 bundle_page 42 2000000 sample_connection).
  assert (H1 : r1 = (inr (), r1.2)) by (vm_compute; reflexivity).
  destruct (fetch_twice false 0 bundle_page 42 2000000 2000060
              sample_connection r1.2)
    as (c2 & rm & H2 & _ & Happs & _); [split; reflexivity | exact H1 |].
  exists r1.2, c2. split; [exact H1|]. split; [exact H2 | exact Happs].
Defined.

Lemma fetch_redirected_witness :
  healthy (Connection stale_tables None [] [])
  ∧ html (redirected (store_url 42))
    = Some (Document (Some "Welcome to Steam") [])
  ∧ Regex.search (bundle_url_regex 42) (url (redirected (store_url 42))) = false
  ∧ ∃ c',
      fetch false 0 redirected 42 2000000 (Connection stale_tables None [] [])
      = (inr (), c')
      ∧ games__bundle (committed c') !! 42 = Some (BundleRecord true 2000000 false).
Proof.
  split; [split; reflexivity|]. split; [reflexivity|]. split; [reflexivity|].
  destruct (fetch_redirected false 0 redirected 42 2000000
              (Connection stale_tables None [] [])
              (Document (Some "Welcome to Steam") []))
    as (c' & Hf & Hrow & _); [split; reflexivity | reflexivity | reflexivity |].
  exists c'. split; [exact Hf | exact Hrow].
Defined.

(** C6 fails: after [fetch 42] against the redirecting source, the name
    row and the app pair stored for 42 before the call are still there. *)
Lemma stale_rows_survive_fetch :
  ∃ c',
    fetch false 0 redirected 42 2000000 (Connection stale_tables None [] [])
    = (inr (), c')
    ∧ games__bundle (committed c') !! 42 = Some (BundleRecord true 2000000 false)
    ∧ games__bundle_name (committed c') !! 42 = Some "Old Bundle"
    ∧ elements (games__bundle_app (committed c')) = [(42, 7)].
Proof.
  eexists. split; [vm_compute; reflexivity|].
  split_and!; vm_compute; reflexivity.
Qed.

Lemma name_bogus_malformed : ¬ filter_list "name,bogus".
Proof. intros H. apply validator_filter_list in H. discriminate H. Qed.

Lemma get_invalid_filters_witness :
  ¬ filter_list (params_filters (filters_req "name,bogus"))
  ∧ get false 0 sample_formatDate (filters_req "name,bogus") [1]
      two_hours_later sample_connection
    = (inl (ValidationError
              "Must be a comma-separated list containing the following values: name, removed, apps"),
       sample_connection).
Proof.
  split; [exact name_bogus_malformed|].
  apply (get_invalid_filters false 0 sample_formatDate
           (filters_req "name,bogus") [1] two_hours_later sample_connection).
  exact name_bogus_malformed.
Defined.

(** C7 fails: the filters string "nameapps" has the single token
    "nameapps", which is not in the vocabulary, and yet it passes
    validation; [get] goes on to query the store. *)
Lemma glued_words_pass_validation :
  foreign_token "nameapps"
  ∧ valid_filters (filters_req "nameapps")
  ∧ ∃ c',
      get false 0 sample_formatDate (filters_req "nameapps") [1]
        two_hours_later sample_connection
      = (inr [Projection.Make 1 None None None "1000000000" false], c')
      ∧ log c' = [SELECT_bundle
                    ["g_b.bundle_id"; "g_b.last_update"; "g_b.queued_for_update"]
                    false [1]].
Proof.
  split.
  - exists "nameapps". split; [left|]. split; [discriminate|].
    intros H. apply list_elem_of_In in H. simpl in H.
    destruct H as [H|[H|[H|[]]]]; discriminate H.
  - split; [reflexivity|].
    eexists. split; [vm_compute; reflexivity|]. vm_compute. reflexivity.
Qed.

Lemma fetch_error_atomic_witness :
  txn sample_connection = None
  ∧ fetch false 0 unreachable 42 2000000 sample_connection
    = (inl (CustomError COMMON_MESSAGES_steam 500), sample_connection)
  ∧ txn (Connection sample_tables None [] [false; false; true]) = None
  ∧ ∃ c',
      fetch false 0 bundle_page 42 2000000
        (Connection sample_tables None [] [false; false; true])
      = (inl (StoreError (INSERT_IGNORE_bundle_name 42 "Some Bundle")), c')
      ∧ committed c' = sample_tables ∧ txn c' = None.
Proof.
  split; [reflexivity|]. split.
  { destruct (fetch_error_atomic false 0 unreachable 42 2000000
                sample_connection eq_refl) as [Hnone _].
    apply Hnone. reflexivity. }
  split; [reflexivity|].
  destruct (fetch_error_atomic false 0 bundle_page 42 2000000
              (Connection sample_tables None [] [false; false; true]) eq_refl)
    as (_ & _ & Hstep & _).
  destruct (Hstep (Document (Some "Some Bundle") ["10"; "12"]) 2%nat
              (INSERT_IGNORE_bundle_name 42 "Some Bundle"))
    as (c' & Hfetch & Hcommitted & Htxn & _).
  - reflexivity.
  - vm_compute. reflexivity.
  - reflexivity.
  - intros [|[|j]] Hj; [reflexivity|reflexivity|lia].
  - discriminate.
  - exists c'. split; [exact Hfetch|]. split; [exact Hcommitted | exact Htxn].
Defined.

(** A failure of the third store operation of [fetch] (the name insert)
    is rolled back: the committed tables are those before the call. *)
Example fetch_fault_rolled_back :
  ∃ c',
    fetch false 0 bundle_page 42 2000000
      (Connection sample_tables None [] [false; false; true])
    = (inl (StoreError (INSERT_IGNORE_bundle_name 42 "Some Bundle")), c')
    ∧ committed c' = sample_tables ∧ txn c' = None
    ∧ last (log c') = Some ROLLBACK.
Proof.
  eexists. split; [vm_compute; reflexivity|].
  split_and!; vm_compute; reflexivity.
Qed.

Lemma get_frame_witness :
  txn sample_connection = None
  ∧ ∃ r c',
      get false 0 sample_formatDate no_filters [1; 2; 5] two_hours_later
        sample_connection = (r, c')
      ∧ games__bundle_name (committed c') = games__bundle_name sample_tables.
Proof.
  split; [reflexivity|].
  pose (res := get false 0 sample_formatDate no_filters [1; 2; 5]
                 two_hours_later sample_connection).
  exists res.1, res.2. split; [apply surjective_pairing|].
  apply (get_frame false 0 sample_formatDate no_filters [1; 2; 5]
           two_hours_later sample_connection eq_refl res.1 res.2
           (surjective_pairing res)).
Defined.

Lemma get_apps_field_witness :
  healthy sample_connection ∧ valid_filters (filters_req "apps")
  ∧ [1; 3] ≠ [] ∧ included (filters_req "apps") "apps" = true
  ∧ ∃ bundles c',
      get false 0 sample_formatDate (filters_req "apps") [1; 3]
        two_hours_later sample_connection = (inr bundles, c').
Proof.
  split; [split; reflexivity|]. split; [reflexivity|]. split; [discriminate|].
  split; [reflexivity|].
  destruct (get_apps_field false 0 sample_formatDate (filters_req "apps")
              [1; 3] two_hours_later sample_connection)
    as (bundles & c' & Hget & _);
    [split; reflexivity | reflexivity | discriminate | reflexivity |].
  exists bundles, c'. exact Hget.
Defined.

(** Bundle 1 gets its two apps, bundle 3 the empty list. *)
Example apps_of_sample :
  (get false 0 sample_formatDate (filters_req "apps") [1; 3]
     two_hours_later sample_connection).1
  = inr [Projection.Make 3 None None (Some []) "1000000000" false;
         Projection.Make 1 None None (Some [Some 11; Some 10]) "1000000000" false].
Proof. vm_compute. reflexivity. Qed.

(** With the name column not selected, [row.name] is undefined and the
    bundle counts as nameless: bundle 1, which has a name and was
    refreshed 25 hours ago, is queued under filters "removed" and is not
    under filters "name". *)
Example unselected_name_counts_as_missing :
  queue_writes
    (log (get false 0 sample_formatDate (filters_req "removed") [1]
            (1000000 + 25 * 3600) sample_connection).2) = [[1]]
  ∧ queue_writes
      (log (get false 0 sample_formatDate (filters_req "name") [1]
              (1000000 + 25 * 3600) sample_connection).2) = [].
Proof. split; vm_compute; reflexivity. Qed.

(** * Further properties of [get] and [fetch] *)

(** ** Outcomes of [get] and [fetch] for every behaviour of the store *)

Section Outcomes.

Variable default_removed : bool.
Variable default_last_update : Z.
Variable formatDate : Z → bool → string.
Variable upstream : string → response.

Local Abbreviation Pool_query_ := (Pool_query default_removed default_last_update).
Local Abbreviation run_ := (run default_removed default_last_update).
Local Abbreviation queue_upsert_ := (queue_upsert default_removed default_last_update).

Lemma query_idle s t0 :
  hoare (λ c, committed c = t0 ∧ txn c = None) (Pool_query_ s)
    (λ rs c, ∃ t', run_ s t0 = Some (t', rs) ∧ committed c = t' ∧ txn c = None)
    (λ _ c, committed c = t0 ∧ txn c = None).
Proof.
  intros [t tx lg fs] [Ht Htx]. simpl in Ht, Htx. subst t tx.
  unfold Pool_query, next_fault. cbn [faults].
  destruct fs as [|[] fs]; cbn [record visible txn committed log faults]; try done.
  all: destruct (run_ s t0) as [[t' rs]|]; cbn; eauto.
Qed.

Lemma query_in_txn s t0 w :
  hoare (λ c, committed c = t0 ∧ txn c = Some w) (Pool_query_ s)
    (λ rs c, ∃ t', run_ s w = Some (t', rs) ∧ committed c = t0 ∧ txn c = Some t')
    (λ _ c, committed c = t0 ∧ is_Some (txn c)).
Proof.
  intros [t tx lg fs] [Ht Htx]. simpl in Ht, Htx. subst t tx.
  unfold Pool_query, next_fault. cbn [faults].
  destruct fs as [|[] fs]; cbn [record visible txn committed log faults]; eauto.
  all: destruct (run_ s w) as [[t' rs]|]; cbn; eauto.
Qed.

Lemma begin_idle t0 :
  hoare (λ c, committed c = t0 ∧ txn c = None) Pool_beginTransaction
    (λ _ c, committed c = t0 ∧ txn c = Some t0)
    (λ _ c, committed c = t0 ∧ txn c = None).
Proof.
  intros [t tx lg fs] [Ht Htx]. simpl in Ht, Htx. subst t tx.
  unfold Pool_beginTransaction, next_fault. cbn [faults].
  destruct fs as [|[] fs]; by cbn.
Qed.

Lemma commit_in_txn t0 w :
  hoare (λ c, committed c = t0 ∧ txn c = Some w) Pool_commit
    (λ _ c, committed c = w ∧ txn c = None)
    (λ _ c, committed c = t0 ∧ is_Some (txn c)).
Proof.
  intros [t tx lg fs] [Ht Htx]. simpl in Ht, Htx. subst t tx.
  unfold Pool_commit, next_fault. cbn [faults].
  destruct fs as [|[] fs]; cbn; eauto.
Qed.

(** The handler of a transaction: roll back, then raise again. *)
Lemma rollback_rethrow {A} t0 (Q : A → connection → Prop) err :
  hoare (λ c, committed c = t0 ∧ is_Some (txn c))
    (Pool_rollback ≫= λ _, throw err)
    Q (λ _ c, committed c = t0 ∧ txn c = None).
Proof. intros [t tx lg fs] [Ht Htx]. by cbn. Qed.

(** The queue write of [get], in its own transaction. *)
Lemma queue_transaction t0 q :
  hoare (λ c, committed c = t0 ∧ txn c = None)
    (Pool_transaction (Pool_query_ (INSERT_bundle_queue q) ≫= λ _, mret ()))
    (λ _ c, q ≠ []
            ∧ committed c
              = Tables (foldl queue_upsert_ (games__bundle t0) q)
                  (games__bundle_name t0) (games__bundle_app t0)
            ∧ txn c = None)
    (λ _ c, committed c = t0 ∧ txn c = None).
Proof.
  unfold Pool_transaction.
  eapply hoare_bind; [apply begin_idle|]. intros ?; cbn beta.
  eapply hoare_try_catch; [|intros e; apply rollback_rethrow].
  eapply hoare_bind with
    (R := λ _ c, ∃ t', (∃ rs, run_ (INSERT_bundle_queue q) t0 = Some (t', rs))
                       ∧ committed c = t0 ∧ txn c = Some t').
  { eapply hoare_bind; [apply query_in_txn|]. intros rs. apply hoare_ret.
    intros c (t' & ? & ?). eauto. }
  intros ?; cbn beta.
  eapply hoare_bind with
    (R := λ _ c, q ≠ []
            ∧ committed c
              = Tables (foldl queue_upsert_ (games__bundle t0) q)
                  (games__bundle_name t0) (games__bundle_app t0)
            ∧ txn c = None).
  2: { intros ?. by apply hoare_ret. }
  intros c (t' & [rs Hrun] & Hc & Ht).
  destruct q as [|i q']; [done|]. cbn in Hrun. injection Hrun as <- <-.
  pose proof (commit_in_txn t0 _ c (conj Hc Ht)) as H.
  destruct (Pool_commit c) as [[e|[]] c1]; [done|]. destruct H as [-> ->]. done.
Qed.

(** [get] from an idle connection, whatever the store operations do: a
    successful call had valid filters and a non-empty identifier list,
    returns the projections of the selected rows and leaves the queue
    write committed; a failed call leaves the committed tables as they
    were. No transaction stays open. *)
Lemma get_outcome req ids now c :
  txn c = None →
  match get default_removed default_last_update formatDate req ids now c with
  | (inr bundles, c') =>
      valid_filters req ∧ ids ≠ []
      ∧ bundles = project formatDate (shape (params_filters req)).2
                    (get_appMap (committed c) req ids) now
                    <$> selected (committed c) req ids
      ∧ committed c'
        = match get_to_queue (committed c) req ids now with
          | [] => committed c
          | q => Tables (foldl queue_upsert_ (games__bundle (committed c)) q)
                   (games__bundle_name (committed c))
                   (games__bundle_app (committed c))
          end
      ∧ txn c' = None
  | (inl e, c') => committed c' = committed c ∧ txn c' = None
  end.
Proof.
  intros Hidle. set (t0 := committed c).
  assert (H : hoare (λ c, committed c = t0 ∧ txn c = None) (get default_removed default_last_update formatDate
      req ids now)
    (λ bundles c',
       valid_filters req ∧ ids ≠ []
       ∧ bundles = project formatDate (shape (params_filters req)).2
                     (get_appMap t0 req ids) now <$> selected t0 req ids
       ∧ committed c'
         = match get_to_queue t0 req ids now with
           | [] => t0
           | q => Tables (foldl queue_upsert_ (games__bundle t0) q)
                    (games__bundle_name t0) (games__bundle_app t0)
           end
       ∧ txn c' = None)
    (λ _ c', committed c' = t0 ∧ txn c' = None)); [|by apply H].
  unfold get, get_appMap, get_to_queue, selected, included, valid_filters.
  eapply hoare_bind with
    (R := λ _ c, (Regex.full_match (validator_regex filters_validator)
                    (params_filters req) = true)
                 ∧ committed c = t0 ∧ txn c = None).
  { unfold validateParams. destruct (Regex.full_match _ _);
      [by apply hoare_ret|by apply hoare_throw]. }
  intros ?; cbn beta.
  destruct (shape (params_filters req)) as [columns filters]. cbn [fst snd].
  set (rows0 := omap _ _).
  eapply hoare_bind with
    (R := λ rows c, (Regex.full_match (validator_regex filters_validator)
                    (params_filters req) = true)
                 ∧ ids ≠ [] ∧ rows = rows0 ∧ committed c = t0 ∧ txn c = None).
  { eapply hoare_bind with
      (R := λ rs c, (Regex.full_match (validator_regex filters_validator)
                    (params_filters req) = true)
                 ∧ ids ≠ [] ∧ bundle_rows rs = rows0
                 ∧ committed c = t0 ∧ txn c = None).
    - intros c0 (Hv & Hc0). pose proof (query_idle
        (SELECT_bundle (select_columns columns) (has filters "name") ids) t0 c0 Hc0) as H.
      destruct (Pool_query_ _ c0) as [[e|rs] c1]; [done|].
      destruct H as (t' & Hrun & Hc1 & Ht1). cbn in Hrun.
      destruct ids as [|i ids']; [done|].
      destruct (_ && _); [done|]. injection Hrun as <- <-. done.
    - intros rs. apply hoare_ret. by intros c0 (? & ? & ? & ?). }
  intros rows; cbn beta.
  set (am := if has filters "apps" then getQueryMap _ else ∅).
  eapply hoare_bind with
    (R := λ appMap c, (Regex.full_match (validator_regex filters_validator)
                    (params_filters req) = true)
                 ∧ ids ≠ [] ∧ rows = rows0 ∧ appMap = am
                 ∧ committed c = t0 ∧ txn c = None).
  { subst am. destruct (has filters "apps").
    - eapply hoare_bind with
        (R := λ rs c, (Regex.full_match (validator_regex filters_validator)
                    (params_filters req) = true)
                 ∧ ids ≠ [] ∧ rows = rows0
                 ∧ app_rows rs = select_apps (games__bundle_app t0) ids
                 ∧ committed c = t0 ∧ txn c = None).
      + intros c0 (Hv & Hids & Hrows & Hc0).
        pose proof (query_idle (SELECT_bundle_app ids) t0 c0 Hc0) as H.
        destruct (Pool_query_ _ c0) as [[e|rs] c1]; [done|].
        destruct H as (t' & Hrun & Hc1 & Ht1). cbn in Hrun.
        destruct ids as [|i ids']; [done|]. injection Hrun as <- <-. done.
      + intros rs. apply hoare_ret. intros c0 (? & ? & ? & -> & ?). done.
    - apply hoare_ret. by intros c0 (? & ? & ? & ?). }
  intros appMap; cbn beta. rewrite get_loop_spec.
  set (q := _ ++ List.filter _ ids).
  eapply hoare_bind with
    (R := λ _ c, (Regex.full_match (validator_regex filters_validator)
                    (params_filters req) = true)
                 ∧ ids ≠ [] ∧ rows = rows0 ∧ appMap = am
                 ∧ committed c
                   = match q with
                     | [] => t0
                     | _ => Tables (foldl queue_upsert_ (games__bundle t0) q)
                              (games__bundle_name t0) (games__bundle_app t0)
                     end
                 ∧ txn c = None).
  { rewrite length_pos_nonempty. destruct q as [|i q'] eqn:Hq.
    - apply hoare_ret. by intros c0 (? & ? & ? & ? & ?).
    - intros c0 (Hv & Hids & Hrows & Ham & Hc0).
      pose proof (queue_transaction t0 (i :: q') c0 Hc0) as H.
      destruct (Pool_transaction _ c0) as [[e|[]] c1]; [done|].
      destruct H as (_ & ? & ?). done. }
  intros ?; cbn beta. apply hoare_ret.
  intros c0 (Hv & Hids & -> & -> & Hc0 & Ht0). subst q.
  split_and!; try done. rewrite Hc0. by destruct (_ ++ _).
Qed.

(** [fetch] from an idle connection, whatever the store operations do:
    a successful call found page content, every scraped app identifier
    parsed, and the three writes are committed; a failed call leaves the
    committed tables as they were. No transaction stays open. *)
Lemma fetch_outcome bundleId now c :
  txn c = None →
  let resp := upstream (store_url bundleId) in
  match fetch default_removed default_last_update upstream bundleId now c with
  | (inr _, c') =>
      ∃ page, html resp = Some page
        ∧ existsb is_nan (page_apps bundleId resp page) = false
        ∧ committed c' = fetch_tables bundleId now resp page (committed c)
        ∧ txn c' = None
  | (inl e, c') => committed c' = committed c ∧ txn c' = None
  end.
Proof.
  intros Hidle resp. set (t0 := committed c).
  unfold fetch, Request_get. fold (store_url bundleId). fold resp.
  unfold mbind at 1. unfold M_bind at 1, mret at 1, M_ret at 1.
  destruct (html resp) as [page|] eqn:Hpage; [|done].
  unfold fetch_tables, page_apps, page_name, page_usable, page_removed.
  set (usable := bool_decide _ && negb (negb _)).
  set (apps := if usable then _ <$> _ else _).
  set (nm := if usable then pageheader page else _).
  set (row := BundleRecord _ now false).
  set (w1 := Tables (<[bundleId := row]> (games__bundle t0))
               (games__bundle_name t0) (games__bundle_app t0)).
  set (w2 := Tables (games__bundle w1)
               (if truthy_opt nm
                then insert_ignore_name (games__bundle_name t0) bundleId (default "" nm)
                else games__bundle_name t0)
               (games__bundle_app t0)).
  match goal with
  | |- context [Pool_beginTransaction ≫= ?k] => set (rest := k)
  end.
  assert (H : hoare (λ c, committed c = t0 ∧ txn c = None)
    (Pool_beginTransaction ≫= rest)
    (λ _ c', existsb is_nan apps = false
             ∧ committed c'
               = Tables (games__bundle w1) (games__bundle_name w2)
                   (match apps with
                    | [] => games__bundle_app t0
                    | _ => list_to_set ((λ a, (bundleId, a)) <$> omap id apps)
                             ∪ games__bundle_app t0
                    end)
             ∧ txn c' = None)
    (λ _ c', committed c' = t0 ∧ txn c' = None)).
  { subst rest. eapply hoare_bind; [apply begin_idle|]. intros ?; cbn beta.
    eapply hoare_try_catch; [|intros e; apply rollback_rethrow].
    eapply hoare_bind with (R := λ _ c, committed c = t0 ∧ txn c = Some w1).
    { intros c0 Hc0.
      pose proof (query_in_txn (INSERT_bundle bundleId row) t0 t0 c0 Hc0) as H.
      destruct (Pool_query_ _ c0) as [[e|rs] c1]; [done|].
      destruct H as (t' & Hrun & Hc1 & Ht1). cbn in Hrun.
      injection Hrun as <- <-. split; [exact Hc1|exact Ht1]. }
    intros ?; cbn beta.
    eapply hoare_bind with (R := λ _ c, committed c = t0 ∧ txn c = Some w2).
    { subst w2. destruct (truthy_opt nm).
      - eapply hoare_bind with (R := λ _ c, committed c = t0 ∧ txn c = Some _);
          [|intros ?; by apply hoare_ret].
        intros c0 Hc0.
        pose proof (query_in_txn
          (INSERT_IGNORE_bundle_name bundleId (default "" nm)) t0 w1 c0 Hc0) as H.
        destruct (Pool_query_ _ c0) as [[e|rs] c1]; [done|].
        destruct H as (t' & Hrun & Hc1 & Ht1). cbn in Hrun.
        injection Hrun as <- <-. split; [exact Hc1|exact Ht1].
      - apply hoare_ret. intros c0 [Hc0 Ht0]. split; [exact Hc0|exact Ht0]. }
    intros ?; cbn beta. rewrite length_pos_nonempty.
    eapply hoare_bind with
      (R := λ _ c, existsb is_nan apps = false ∧ committed c = t0
                   ∧ txn c = Some (Tables (games__bundle w1) (games__bundle_name w2)
                        (match apps with
                         | [] => games__bundle_app t0
                         | _ => list_to_set ((λ a, (bundleId, a)) <$> omap id apps)
                                  ∪ games__bundle_app t0
                         end))).
    { destruct apps as [|a apps'] eqn:Happs.
      - apply hoare_ret. intros c0 [Hc0 Ht0]. split_and!; [done|exact Hc0|exact Ht0].
      - eapply hoare_bind with
          (R := λ _ c, existsb is_nan (a :: apps') = false ∧ committed c = t0
                       ∧ txn c = Some _);
          [|intros ?; by apply hoare_ret].
        intros c0 Hc0.
        pose proof (query_in_txn
          (INSERT_IGNORE_bundle_app bundleId (a :: apps')) t0 w2 c0 Hc0) as H.
        destruct (Pool_query_ _ c0) as [[e|rs] c1]; [done|].
        destruct H as (t' & Hrun & Hc1 & Ht1). cbn [run] in Hrun.
        destruct (existsb is_nan (a :: apps')); [done|].
        injection Hrun as <- <-. split_and!; [done|exact Hc1|exact Ht1]. }
    intros ?; cbn beta.
    intros c0 (Hnan & Hc0 & Ht0).
    pose proof (commit_in_txn t0 _ c0 (conj Hc0 Ht0)) as H.
    destruct (Pool_commit c0) as [[e|[]] c1]; [done|]. by destruct H. }
  specialize (H c (conj eq_refl Hidle)).
  destruct ((Pool_beginTransaction ≫= rest) c) as [[e|[]] c']; [done|].
  destruct H as (Hnan & Hc' & Ht'). exists page. split_and!; try done.
  rewrite Hc'. subst w2 w1. cbn [games__bundle games__bundle_name]. f_equal.
  clear. subst apps. by destruct (if usable then _ else _).
Qed.

End Outcomes.

Section GetResults.

Variable default_removed : bool.
Variable default_last_update : Z.
Variable formatDate : Z → bool → string.

Local Abbreviation get_outcome_ :=
  (get_outcome default_removed default_last_update formatDate).
Local Abbreviation queue_upsert_ := (queue_upsert default_removed default_last_update).
Local Abbreviation upsert_lookup_ :=
  (foldl_queue_upsert_lookup default_removed default_last_update).

(** The committed primary table after a successful [get]. *)
Lemma get_committed_lookup req ids now c bundles c' id :
  txn c = None → get default_removed default_last_update formatDate
      req ids now c = (inr bundles, c') →
  games__bundle (committed c') !! id
  = if decide (id ∈ get_to_queue (committed c) req ids now)
    then Some (match games__bundle (committed c) !! id with
               | Some r => BundleRecord (removed r) (last_update r) true
               | None => BundleRecord default_removed default_last_update true
               end)
    else games__bundle (committed c) !! id.
Proof.
  intros Hidle Hget. pose proof (get_outcome_ req ids now c Hidle) as H.
  rewrite Hget in H. destruct H as (_ & _ & _ & -> & _).
  destruct (get_to_queue _ _ _ _) as [|i q] eqn:Hq.
  - rewrite decide_False; [done|]. by intros ?%elem_of_nil.
  - cbn [games__bundle]. by rewrite upsert_lookup_.
Qed.

Lemma to_queue_requested t req ids now id :
  id ∈ get_to_queue t req ids now → id ∈ ids.
Proof.
  unfold get_to_queue. rewrite elem_of_app. intros [Hin|Hin].
  - apply list_elem_of_fmap in Hin as (row & -> & Hin).
    apply list_elem_of_In, filter_In in Hin as [Hin _].
    apply list_elem_of_In, elem_of_selected in Hin as (_ & _ & ? & _). done.
  - apply list_elem_of_In, filter_In in Hin as [Hin _]. by apply list_elem_of_In.
Qed.

(** X1. The optional fields of a projection are exactly the included
    ones: in every projection returned by [get], [name], [removed] and
    [apps] are present if and only if the filters include them. *)
Theorem get_fields_follow_filters req ids now c bundles c' :
  txn c = None → get default_removed default_last_update formatDate
      req ids now c = (inr bundles, c') →
  Forall (λ bundle,
       (is_Some (Projection.name bundle) ↔ included req "name" = true)
       ∧ (is_Some (Projection.removed bundle) ↔ included req "removed" = true)
       ∧ (is_Some (Projection.apps bundle) ↔ included req "apps" = true))
    bundles.
Proof.
  intros Hidle Hget. pose proof (get_outcome_ req ids now c Hidle) as H.
  rewrite Hget in H. destruct H as (_ & _ & -> & _).
  apply Forall_fmap, Forall_forall. intros row _. unfold included.
  cbn [compose project Projection.name Projection.removed Projection.apps].
  split_and!.
  - destruct (has _ "name"); split; (done || by intros [? ?] || by eexists).
  - destruct (has _ "removed"); split; (done || by intros [? ?] || by eexists).
  - destruct (has _ "apps"); split; (done || by intros [? ?] || by eexists).
Qed.

(** X2. A projection shows what is stored: its identifier was requested
    and has a primary row; when included, [removed] is the stored flag and
    [name] is the stored name row; [last_update] is the stored time in
    milliseconds, formatted. *)
Theorem get_projection_shows_store req ids now c bundles c' :
  txn c = None → get default_removed default_last_update formatDate
      req ids now c = (inr bundles, c') →
  Forall (λ bundle,
       Projection.bundle_id bundle ∈ ids
       ∧ ∃ r, games__bundle (committed c) !! Projection.bundle_id bundle = Some r
         ∧ Projection.last_update bundle = formatDate (last_update r * 1000) true
         ∧ (included req "removed" = true →
            Projection.removed bundle = Some (removed r))
         ∧ (included req "name" = true →
            ∃ nm, games__bundle_name (committed c) !! Projection.bundle_id bundle
                  = Some nm
                  ∧ Projection.name bundle = Some (Some nm)))
    bundles.
Proof.
  intros Hidle Hget. pose proof (get_outcome_ req ids now c Hidle) as H.
  rewrite Hget in H. destruct H as (_ & _ & -> & _).
  apply Forall_fmap, Forall_forall. intros row Hrow.
  apply elem_of_selected in Hrow as (r & Hr & Hin & Hname & Hrem & Hlu & Hq).
  unfold included in *.
  cbn [compose project Projection.name Projection.removed Projection.apps
       Projection.bundle_id Projection.last_update].
  split; [done|]. exists r. split_and!; [done|by rewrite Hlu| |].
  - intros Hi. rewrite Hi in Hrem |- *. by rewrite Hrem.
  - intros Hi. rewrite Hi in Hname |- *. destruct Hname as (nm & Hnm & ->). eauto.
Qed.

(** X3. The flag that [get] reports is the flag it leaves in the store:
    for every returned projection, [queued_for_update] equals the
    [queued_for_update] column of the bundle's row when [get] returns. *)
Theorem get_reports_stored_flag req ids now c bundles c' :
  txn c = None → get default_removed default_last_update formatDate
      req ids now c = (inr bundles, c') →
  Forall (λ bundle,
       ∃ r, games__bundle (committed c') !! Projection.bundle_id bundle = Some r
            ∧ Projection.queued_for_update bundle = queued_for_update r)
    bundles.
Proof.
  intros Hidle Hget.
  pose proof (get_outcome_ req ids now c Hidle) as H.
  rewrite Hget in H. destruct H as (_ & _ & Hb & _).
  rewrite Hb. apply Forall_fmap, Forall_forall. intros row Hrow.
  pose proof (to_queue_row _ _ _ now _ Hrow) as Hq.
  cbn [compose project Projection.bundle_id Projection.queued_for_update].
  rewrite (get_committed_lookup req ids now c bundles c') by done.
  apply elem_of_selected in Hrow as (r & Hr & _ & _ & _ & _ & Hflag).
  rewrite Hr, Hflag. destruct (requeue now row).
  - rewrite decide_True by by apply Hq. eexists. split; [done|].
    by rewrite orb_true_r.
  - rewrite decide_False.
    + exists r. by rewrite orb_false_r.
    + intros Hin. apply Hq in Hin. done.
Qed.

(** X4. After a successful [get] every requested identifier has a
    primary row, and no other row was created: the identifiers of the
    primary table are those it had before together with the requested
    ones. *)
Theorem get_creates_requested_rows req ids now c bundles c' :
  txn c = None → get default_removed default_last_update formatDate
      req ids now c = (inr bundles, c') →
  dom (games__bundle (committed c'))
  = dom (games__bundle (committed c)) ∪ list_to_set ids.
Proof.
  intros Hidle Hget. apply set_eq. intros id.
  rewrite elem_of_union, elem_of_list_to_set, !elem_of_dom.
  rewrite (get_committed_lookup req ids now c bundles c') by done.
  case_decide as Hq.
  - split; [intros _|by eexists]. right. by eapply to_queue_requested.
  - split; [by left|]. intros [?|Hin]; [done|].
    destruct (games__bundle (committed c) !! id) eqn:Hr; [by eexists|].
    exfalso. apply Hq. apply to_queue_not_found; [done|].
    intros Hsel. apply selected_ids in Hsel as (_ & [? ?] & _). congruence.
Qed.

(** X5. [get] writes nothing about an identifier that was not requested:
    whatever the outcome of the call, the primary row of every
    unrequested identifier (its [queued_for_update] flag included) is as
    it was. *)
Theorem get_leaves_unrequested_rows req ids now c r c' :
  txn c = None → get default_removed default_last_update formatDate
      req ids now c = (r, c') →
  ∀ id, id ∉ ids →
    games__bundle (committed c') !! id = games__bundle (committed c) !! id.
Proof.
  intros Hidle Hget id Hid. destruct r as [e|bundles].
  - pose proof (get_outcome_ req ids now c Hidle) as H.
    rewrite Hget in H. destruct H as [-> _]. done.
  - rewrite (get_committed_lookup req ids now c bundles c') by done.
    rewrite decide_False; [done|]. intros Hq. by apply to_queue_requested in Hq.
Qed.

(** X8. With an empty identifier list [get] fails (the query would read
    [IN ()]): it returns no projections and the committed tables stay as
    they were. *)
Theorem get_no_ids_fails req now c :
  txn c = None →
  ∃ e c', get default_removed default_last_update formatDate
      req [] now c = (inl e, c') ∧ committed c' = committed c.
Proof.
  intros Hidle. pose proof (get_outcome_ req [] now c Hidle) as H.
  destruct (get default_removed default_last_update formatDate
      req [] now c) as [[e|bundles] c'].
  - exists e, c'. by destruct H.
  - by destruct H as (_ & ? & _).
Qed.

End GetResults.

Section GetComposition.

Variable default_removed : bool.
Variable default_last_update : Z.
Variable formatDate : Z → bool → string.
Variable upstream : string → response.

Local Abbreviation get_outcome_ :=
  (get_outcome default_removed default_last_update formatDate).
Local Abbreviation fetch_outcome_ :=
  (fetch_outcome default_removed default_last_update upstream).
Local Abbreviation committed_lookup_ :=
  (get_committed_lookup default_removed default_last_update formatDate).

Lemma get_keeps_child_tables req ids now c bundles c' :
  txn c = None → get default_removed default_last_update formatDate
      req ids now c = (inr bundles, c') →
  games__bundle_name (committed c') = games__bundle_name (committed c)
  ∧ games__bundle_app (committed c') = games__bundle_app (committed c)
  ∧ txn c' = None.
Proof.
  intros Hidle Hget. pose proof (get_outcome_ req ids now c Hidle) as H.
  rewrite Hget in H. destruct H as (_ & _ & _ & -> & ->).
  by destruct (get_to_queue _ _ _ _).
Qed.

Lemma selected_same_tables t1 t2 req ids row :
  games__bundle t1 !! row_bundle_id row = games__bundle t2 !! row_bundle_id row →
  games__bundle_name t1 = games__bundle_name t2 →
  row ∈ selected t1 req ids → row ∈ selected t2 req ids.
Proof.
  intros Hb Hn. rewrite !elem_of_selected, Hb, Hn. done.
Qed.

(** Once [get] has run, every identifier it would queue is queued. *)
Lemma to_queue_after_get req ids now c bundles c' id :
  txn c = None → get default_removed default_last_update formatDate
      req ids now c = (inr bundles, c') →
  id ∈ get_to_queue (committed c') req ids now →
  ∃ r, games__bundle (committed c') !! id = Some r ∧ queued_for_update r = true.
Proof.
  intros Hidle Hget Hq2.
  destruct (get_keeps_child_tables req ids now c bundles c' Hidle Hget)
    as (Hn & Ha & _).
  pose proof (committed_lookup_ req ids now c bundles c' id Hidle Hget) as Hl.
  destruct (decide (id ∈ get_to_queue (committed c) req ids now)) as [Hq1|Hq1].
  { rewrite Hl. eexists. split; [done|].
    by destruct (games__bundle (committed c) !! id). }
  exfalso. unfold get_to_queue in Hq2. apply elem_of_app in Hq2 as [Hin|Hin].
  - apply list_elem_of_fmap in Hin as (row & -> & Hin).
    apply list_elem_of_In, filter_In in Hin as [Hin Hre].
    apply list_elem_of_In in Hin.
    apply Hq1. apply to_queue_row; [|done].
    eapply selected_same_tables; [| |exact Hin]; done.
  - apply list_elem_of_In, filter_In in Hin as [Hin Hnf].
    apply list_elem_of_In in Hin. apply negb_true_iff in Hnf.
    assert (Hsel : id ∈ row_bundle_id <$> selected (committed c') req ids).
    { destruct (decide (id ∈ row_bundle_id <$> selected (committed c) req ids))
        as [Hs|Hs].
      - apply selected_ids. apply selected_ids in Hs. by rewrite Hl, Hn.
      - exfalso. apply Hq1. by apply to_queue_not_found. }
    apply includes_id_elem in Hsel. congruence.
Qed.

(** X6. Repeating [get] changes nothing more: when the same call (same
    request, identifiers and time) is made again right after a successful
    [get], the committed tables are exactly as the first call left them,
    and every projection of the first call is returned again unchanged. *)
Theorem get_again_changes_nothing req ids now c bundles1 c1 bundles2 c2 :
  txn c = None →
  get default_removed default_last_update formatDate
      req ids now c = (inr bundles1, c1) →
  get default_removed default_last_update formatDate
      req ids now c1 = (inr bundles2, c2) →
  committed c2 = committed c1 ∧ ∀ bundle, bundle ∈ bundles1 → bundle ∈ bundles2.
Proof.
  intros Hidle Hget1 Hget2.
  destruct (get_keeps_child_tables req ids now c bundles1 c1 Hidle Hget1)
    as (Hn1 & Ha1 & Hidle1).
  destruct (get_keeps_child_tables req ids now c1 bundles2 c2 Hidle1 Hget2)
    as (Hn2 & Ha2 & _).
  split.
  - assert (Hb : games__bundle (committed c2) = games__bundle (committed c1)).
    { apply map_eq. intros id.
      rewrite (committed_lookup_ req ids now c1 bundles2 c2) by done.
      case_decide as Hq; [|done].
      destruct (to_queue_after_get req ids now c bundles1 c1 id Hidle Hget1 Hq)
        as ([rm lu qu] & -> & Hqu).
      simpl in Hqu. by subst qu. }
    destruct (committed c2), (committed c1). simpl in *. congruence.
  - intros bundle Hin.
    pose proof (get_outcome_ req ids now c Hidle) as H1. rewrite Hget1 in H1.
    destruct H1 as (_ & _ & Hb1 & _).
    pose proof (get_outcome_ req ids now c1 Hidle1) as H2. rewrite Hget2 in H2.
    destruct H2 as (_ & _ & Hb2 & _).
    rewrite Hb1 in Hin. apply list_elem_of_fmap in Hin as (row & -> & Hrow).
    rewrite Hb2. unfold get_appMap. rewrite Ha1.
    fold (get_appMap (committed c) req ids).
    pose proof (to_queue_row _ _ _ now _ Hrow) as Hq.
    pose proof (committed_lookup_ req ids now c bundles1 c1
                  (row_bundle_id row) Hidle Hget1) as Hl.
    apply list_elem_of_fmap.
    exists (BundleRow (row_bundle_id row) (row_name row) (row_removed row)
              (row_last_update row)
              (row_queued_for_update row || requeue now row)).
    split.
    + unfold project. cbn [row_bundle_id row_name row_removed row_last_update
                           row_queued_for_update].
      f_equal. unfold requeue. cbn [row_queued_for_update].
      unfold stale. cbn [row_name row_removed row_last_update].
      by destruct (row_queued_for_update row), (_ || _).
    + apply elem_of_selected in Hrow as (r & Hr & Hids & Hname & Hrem & Hlu & Hfl).
      apply elem_of_selected.
      cbn [row_bundle_id row_name row_removed row_last_update
           row_queued_for_update].
      rewrite Hn1, Hl, Hr. destruct (requeue now row).
      * rewrite decide_True by by apply Hq. eexists. split; [done|].
        cbn [removed last_update queued_for_update]. by rewrite orb_true_r.
      * rewrite decide_False by (intros ?%Hq; done). exists r.
        by rewrite orb_false_r.
Qed.

Lemma includes_id_same ids1 ids2 :
  (∀ id : Z, id ∈ ids1 ↔ id ∈ ids2) →
  ∀ id, includes_id ids1 id = includes_id ids2 id.
Proof.
  intros Hs id. destruct (includes_id ids2 id) eqn:E.
  - apply includes_id_elem, Hs. by apply includes_id_elem.
  - destruct (includes_id ids1 id) eqn:E1; [|done].
    apply includes_id_elem, Hs, includes_id_elem in E1. congruence.
Qed.

Lemma filter_same {A} (f g : A → bool) (l : list A) :
  (∀ x, f x = g x) → List.filter f l = List.filter g l.
Proof. intros H. induction l as [|x l IH]; simpl; [done|]. by rewrite H, IH. Qed.

Lemma omap_same {A B} (f g : A → option B) (l : list A) :
  (∀ x, f x = g x) → omap f l = omap g l.
Proof.
  intros H. induction l as [|x l IH]; [done|].
  change (omap f (x :: l))
    with (match f x with Some y => y :: omap f l | None => omap f l end).
  change (omap g (x :: l))
    with (match g x with Some y => y :: omap g l | None => omap g l end).
  by rewrite H, IH.
Qed.

Lemma selected_same_ids t req ids1 ids2 :
  (∀ id, id ∈ ids1 ↔ id ∈ ids2) →
  selected t req ids1 = selected t req ids2.
Proof.
  intros Hs. unfold selected. apply omap_same. intros [id r].
  unfold select_row. by rewrite (includes_id_same ids1 ids2 Hs).
Qed.

Lemma get_to_queue_same_ids t req ids1 ids2 now :
  (∀ id, id ∈ ids1 ↔ id ∈ ids2) →
  ∀ id, id ∈ get_to_queue t req ids1 now ↔ id ∈ get_to_queue t req ids2 now.
Proof.
  intros Hs id. unfold get_to_queue.
  rewrite (selected_same_ids t req ids1 ids2 Hs), !elem_of_app.
  assert (Hf : ∀ (f : Z → bool) l, id ∈ List.filter f l ↔ id ∈ l ∧ f id = true).
  { intros f l. by rewrite list_elem_of_In, filter_In, <- list_elem_of_In. }
  by rewrite !Hf, Hs.
Qed.

(** X7. [get] treats the requested identifiers as a set: two lists with
    the same elements (in any order, with any repetitions) give the same
    projections and leave the same committed tables. *)
Theorem get_ids_as_a_set req ids1 ids2 now c bundles1 c1 bundles2 c2 :
  txn c = None →
  (∀ id, id ∈ ids1 ↔ id ∈ ids2) →
  get default_removed default_last_update formatDate
      req ids1 now c = (inr bundles1, c1) →
  get default_removed default_last_update formatDate
      req ids2 now c = (inr bundles2, c2) →
  bundles1 = bundles2 ∧ committed c1 = committed c2.
Proof.
  intros Hidle Hs Hget1 Hget2.
  pose proof (get_outcome_ req ids1 now c Hidle) as H1. rewrite Hget1 in H1.
  destruct H1 as (_ & _ & -> & _).
  pose proof (get_outcome_ req ids2 now c Hidle) as H2. rewrite Hget2 in H2.
  destruct H2 as (_ & _ & -> & _).
  split.
  - rewrite (selected_same_ids _ req ids1 ids2 Hs). f_equal. f_equal.
    unfold get_appMap, select_apps.
    by rewrite (filter_same _ _ _ (includes_id_same ids1 ids2 Hs)).
  - destruct (get_keeps_child_tables req ids1 now c _ c1 Hidle Hget1)
      as (Hn1 & Ha1 & _).
    destruct (get_keeps_child_tables req ids2 now c _ c2 Hidle Hget2)
      as (Hn2 & Ha2 & _).
    assert (Hb : games__bundle (committed c1) = games__bundle (committed c2)).
    { apply map_eq. intros id.
      rewrite (committed_lookup_ req ids1 now c _ c1) by done.
      rewrite (committed_lookup_ req ids2 now c _ c2) by done.
      pose proof (get_to_queue_same_ids (committed c) req ids1 ids2 now Hs id).
      repeat case_decide; tauto || done. }
    destruct (committed c1), (committed c2). simpl in *. congruence.
Qed.

(** X13. A [get] made not more than 86400 seconds after a successful
    [fetch] of a bundle, and requesting that bundle: it returns a
    projection for the bundle exactly when the name field is not
    included or the bundle has a name row; a projection it returns says
    [queued_for_update = false], and the stored row then keeps the time
    of the refresh and [queued_for_update = false]; when it returns no
    projection for the bundle, the stored [queued_for_update] is set
    back to true. *)
Theorem get_soon_after_fetch bundleId now req ids now' c c1 bundles c2 :
  txn c = None →
  fetch default_removed default_last_update upstream
      bundleId now c = (inr (), c1) →
  get default_removed default_last_update formatDate
      req ids now' c1 = (inr bundles, c2) →
  now' - now ≤ 86400 →
  bundleId ∈ ids →
  ((∃ bundle, bundle ∈ bundles ∧ Projection.bundle_id bundle = bundleId)
   ↔ (included req "name" = true →
      is_Some (games__bundle_name (committed c1) !! bundleId)))
  ∧ (∀ bundle, bundle ∈ bundles → Projection.bundle_id bundle = bundleId →
       Projection.queued_for_update bundle = false
       ∧ games__bundle (committed c2) !! bundleId
         = Some (BundleRecord
                   (page_removed bundleId (upstream (store_url bundleId)))
                   now false))
  ∧ ((∀ bundle, bundle ∈ bundles → Projection.bundle_id bundle ≠ bundleId) →
     games__bundle (committed c2) !! bundleId
     = Some (BundleRecord
               (page_removed bundleId (upstream (store_url bundleId)))
               now true)).
Proof.
  intros Hidle Hfetch Hget Hage Hreq.
  pose proof (fetch_outcome_ bundleId now c Hidle) as Hf. cbn zeta in Hf.
  rewrite Hfetch in Hf. destruct Hf as (page & _ & _ & Hc1 & Hidle1).
  assert (Hrow : games__bundle (committed c1) !! bundleId
                 = Some (BundleRecord
                           (page_removed bundleId (upstream (store_url bundleId)))
                           now false)).
  { rewrite Hc1. apply lookup_insert_eq. }
  pose proof (get_outcome_ req ids now' c1 Hidle1) as Hg. rewrite Hget in Hg.
  destruct Hg as (_ & _ & Hb & _).
  pose proof (committed_lookup_ req ids now' c1 bundles c2 bundleId Hidle1 Hget)
    as Hl.
  assert (Hserved :
    (∃ bundle, bundle ∈ bundles ∧ Projection.bundle_id bundle = bundleId)
    ↔ bundleId ∈ row_bundle_id <$> selected (committed c1) req ids).
  { rewrite Hb. split.
    - intros (bundle & Hin & Hid).
      apply list_elem_of_fmap in Hin as (row & -> & Hsel).
      cbn [project Projection.bundle_id] in Hid. rewrite <- Hid.
      by apply list_elem_of_fmap_2.
    - intros Hin. apply list_elem_of_fmap in Hin as (row & Hid & Hsel).
      eexists. split; [by apply list_elem_of_fmap_2|]. done. }
  split_and!.
  - rewrite Hserved, selected_ids. split; [tauto|].
    intros Hname. split_and!; [done|by rewrite Hrow|done].
  - intros bundle Hin Hid. rewrite Hb in Hin.
    apply list_elem_of_fmap in Hin as (row & -> & Hsel).
    cbn [project Projection.bundle_id] in Hid.
    pose proof (to_queue_row _ _ _ now' _ Hsel) as Hq.
    apply elem_of_selected in Hsel as (r & Hr & _ & _ & _ & Hlu & Hfl).
    rewrite Hid, Hrow in Hr. injection Hr as <-.
    cbn [last_update queued_for_update] in Hlu, Hfl.
    assert (Hre : requeue now' row = false).
    { unfold requeue, stale. rewrite Hfl, Hlu. cbn [negb andb].
      apply orb_false_iff. split; [apply Z.ltb_ge; lia|].
      apply andb_false_iff. right. apply Z.ltb_ge. lia. }
    cbn [project Projection.queued_for_update]. rewrite Hfl, Hre.
    split; [done|].
    rewrite Hl, decide_False, Hrow; [done|].
    rewrite <- Hid. intros Hin. apply Hq in Hin. congruence.
  - intros Hnone. rewrite Hl, decide_True, Hrow; [done|].
    apply to_queue_not_found; [done|].
    intros Hin. apply Hserved in Hin as (bundle & Hin & Hid).
    by apply (Hnone bundle).
Qed.

End GetComposition.

Section FetchResults.

Variable default_removed : bool.
Variable default_last_update : Z.
Variable upstream : string → response.

Local Abbreviation fetch_outcome_ :=
  (fetch_outcome default_removed default_last_update upstream).

(** The name rows and app pairs after the writes of a successful [fetch]. *)
Lemma fetch_tables_children bundleId now resp page t :
  (∀ k, games__bundle_name (fetch_tables bundleId now resp page t) !! k
        = match games__bundle_name t !! k with
          | Some n => Some n
          | None =>
              if decide (k = bundleId)
              then match page_name bundleId resp page with
                   | Some n => if truthy n then Some n else None
                   | None => None
                   end
              else None
          end)
  ∧ (∀ k a, (k, a) ∈ games__bundle_app (fetch_tables bundleId now resp page t) ↔
            (k, a) ∈ games__bundle_app t
            ∨ (k = bundleId ∧ Some a ∈ page_apps bundleId resp page)).
Proof.
  unfold fetch_tables. cbn [games__bundle_name games__bundle_app]. split.
  - intros k. destruct (page_name bundleId resp page) as [n|]; cbn [truthy_opt].
    + destruct (truthy n); cbn [default].
      * unfold insert_ignore_name.
        destruct (games__bundle_name t !! bundleId) eqn:Hid.
        -- destruct (games__bundle_name t !! k) eqn:Hk; [done|].
           case_decide; [congruence|done].
        -- destruct (decide (k = bundleId)) as [->|Hne].
           ++ by rewrite lookup_insert_eq, Hid.
           ++ rewrite lookup_insert_ne by done.
              by destruct (games__bundle_name t !! k).
      * destruct (games__bundle_name t !! k); [done|]. by case_decide.
    + destruct (games__bundle_name t !! k); [done|]. by case_decide.
  - intros k a.
    assert (Hin : ∀ l : list (option Z),
      (k, a) ∈ (list_to_set ((λ a, (bundleId, a)) <$> omap id l) : gset (Z * Z))
      ↔ k = bundleId ∧ Some a ∈ l).
    { intros l. rewrite elem_of_list_to_set, list_elem_of_fmap. split.
      - intros (a' & [= -> ->] & Ha). split; [done|].
        apply list_elem_of_omap in Ha as (o & Ho & Hid). simpl in Hid. by subst o.
      - intros [-> Ha]. exists a. split; [done|].
        apply list_elem_of_omap. by exists (Some a). }
    destruct (page_apps bundleId resp page) as [|o l] eqn:Happs.
    + split; [by left|]. intros [?|[_ Hn]]; [done|]. by apply elem_of_nil in Hn.
    + rewrite elem_of_union, Hin. tauto.
Qed.

(** X10. What a successful [fetch] stores, whatever page it found: the
    primary row of the bundle is overwritten with [removed] as decided
    from the final URL, [last_update = now] and [queued_for_update =
    false]; a name row is kept if there was one and is otherwise created
    from the scraped title when that is not empty; the app pairs are those
    stored before together with the scraped ones. *)
Theorem fetch_success_stores bundleId now c c' :
  txn c = None → fetch default_removed default_last_update upstream
      bundleId now c = (inr (), c') →
  let resp := upstream (store_url bundleId) in
  ∃ page,
    html resp = Some page
    ∧ games__bundle (committed c')
      = <[bundleId := BundleRecord (page_removed bundleId resp) now false]>
          (games__bundle (committed c))
    ∧ games__bundle_name (committed c') !! bundleId
      = match games__bundle_name (committed c) !! bundleId with
        | Some n => Some n
        | None => match page_name bundleId resp page with
                  | Some n => if truthy n then Some n else None
                  | None => None
                  end
        end
    ∧ ∀ a, (bundleId, a) ∈ games__bundle_app (committed c') ↔
           (bundleId, a) ∈ games__bundle_app (committed c)
           ∨ Some a ∈ page_apps bundleId resp page.
Proof.
  intros Hidle Hfetch resp.
  pose proof (fetch_outcome_ bundleId now c Hidle) as H. cbn zeta in H.
  rewrite Hfetch in H. destruct H as (page & Hpage & _ & -> & _).
  destruct (fetch_tables_children bundleId now resp page (committed c))
    as [Hn Ha].
  exists page. split_and!; [done|done| |].
  - fold resp. rewrite Hn. by rewrite decide_True.
  - intros a. fold resp. rewrite Ha. tauto.
Qed.

(** X11. [fetch] never takes anything away, and touches one bundle only:
    whatever the outcome of the call, every name row stored before is
    still there with the same name, every app pair stored before is still
    there, and the rows of every other bundle, in all three tables, are
    as they were. *)
Theorem fetch_only_adds bundleId now c r c' :
  txn c = None → fetch default_removed default_last_update upstream
      bundleId now c = (r, c') →
  (∀ k n, games__bundle_name (committed c) !! k = Some n →
          games__bundle_name (committed c') !! k = Some n)
  ∧ (∀ p, p ∈ games__bundle_app (committed c) →
          p ∈ games__bundle_app (committed c'))
  ∧ ∀ k, k ≠ bundleId →
      games__bundle (committed c') !! k = games__bundle (committed c) !! k
      ∧ games__bundle_name (committed c') !! k
        = games__bundle_name (committed c) !! k
      ∧ ∀ a, (k, a) ∈ games__bundle_app (committed c') ↔
             (k, a) ∈ games__bundle_app (committed c).
Proof.
  intros Hidle Hfetch.
  pose proof (fetch_outcome_ bundleId now c Hidle) as H. cbn zeta in H.
  rewrite Hfetch in H. destruct r as [e|[]].
  { destruct H as [-> _]. done. }
  destruct H as (page & _ & _ & -> & _).
  set (resp := upstream (store_url bundleId)).
  destruct (fetch_tables_children bundleId now resp page (committed c))
    as [Hn Ha].
  split_and!.
  - intros k n Hk. by rewrite Hn, Hk.
  - intros [k a] Hp. apply Ha. by left.
  - intros k Hk. split_and!.
    + unfold fetch_tables. cbn [games__bundle]. by rewrite lookup_insert_ne.
    + rewrite Hn. rewrite decide_False by done.
      by destruct (games__bundle_name (committed c) !! k).
    + intros a. rewrite Ha. split; [|by left]. by intros [?|[? _]].
Qed.

End FetchResults.

Section FilterLists.

Lemma shape_nonempty filters :
  truthy filters = true →
  shape filters
  = shape_of (JsString.includes (JsString.split "," filters) "name")
      (JsString.includes (JsString.split "," filters) "removed")
      (JsString.includes (JsString.split "," filters) "apps").
Proof.
  intros Ht. unfold shape. rewrite Ht.
  set (ks := JsString.split "," filters).
  destruct (JsString.includes ks "name") eqn:En,
    (JsString.includes ks "removed") eqn:Er,
    (JsString.includes ks "apps") eqn:Ea;
    cbn -[JsString.includes]; rewrite ?En; cbn -[JsString.includes];
    rewrite ?Er; cbn -[JsString.includes]; rewrite ?Ea; reflexivity.
Qed.

Lemma includes_elem (l : list string) k : JsString.includes l k = true ↔ k ∈ l.
Proof.
  unfold JsString.includes. rewrite existsb_exists. split.
  - intros (x & Hin & Heq). apply String.eqb_eq in Heq. subst x.
    by apply list_elem_of_In.
  - intros Hin. exists k. split; [by apply list_elem_of_In|apply String.eqb_refl].
Qed.

Lemma vocabulary_word w :
  w ∈ columnKeys →
  JsString.all_chars JsString.not_comma w = true ∧ truthy w = true.
Proof.
  intros H. apply list_elem_of_In in H. simpl in H.
  destruct H as [<-|[<-|[<-|[]]]]; by split.
Qed.

Lemma split_join_words (ws : list string) :
  ws ≠ [] → (∀ w, w ∈ ws → w ∈ columnKeys) →
  JsString.split "," (JsString.join "," ws) = ws.
Proof.
  intros Hne Hws. induction ws as [|w ws IH]; [done|].
  destruct (vocabulary_word w) as [Hw _]; [apply Hws; left|].
  destruct ws as [|w' ws].
  - by apply split_no_comma.
  - change (JsString.join "," (w :: w' :: ws))
      with (w +:+ String "," (JsString.join "," (w' :: ws))).
    rewrite split_comma by done. f_equal. apply IH; [done|].
    intros x Hx. apply Hws. by right.
Qed.

Lemma join_words_filter_list (ws : list string) :
  (∀ w, w ∈ ws → w ∈ columnKeys) → filter_list (JsString.join "," ws).
Proof.
  intros Hws. induction ws as [|w ws IH]; [constructor|].
  destruct ws as [|w' ws].
  - cbn [JsString.join]. rewrite <- (append_empty_r w).
    constructor; [apply Hws; left|constructor].
  - change (JsString.join "," (w :: w' :: ws))
      with (w +:+ String "," (JsString.join "," (w' :: ws))).
    apply filter_list_word_comma; [apply Hws; left|].
    apply IH. intros x Hx. apply Hws. by right.
Qed.

Lemma join_words_truthy (ws : list string) :
  ws ≠ [] → (∀ w, w ∈ ws → w ∈ columnKeys) →
  truthy (JsString.join "," ws) = true.
Proof.
  intros Hne Hws. destruct ws as [|w ws]; [done|].
  assert (Hw : w ∈ columnKeys) by (apply Hws; left).
  apply list_elem_of_In in Hw. simpl in Hw.
  destruct Hw as [<-|[<-|[<-|[]]]]; by destruct ws.
Qed.

(** X9. A comma-separated list of vocabulary words selects exactly the
    words it lists: for every non-empty list of words among name, removed
    and apps (in any order, with repetitions), the filter string made of
    the words joined by commas passes validation, and a field is included
    if and only if it is listed. *)
Theorem filters_include_listed_words req ws :
  ws ≠ [] → (∀ w, w ∈ ws → w ∈ columnKeys) →
  params_filters req = JsString.join "," ws →
  valid_filters req
  ∧ ∀ k, k ∈ columnKeys → (included req k = true ↔ k ∈ ws).
Proof.
  intros Hne Hws Hreq. split.
  - unfold valid_filters. rewrite Hreq.
    by apply validator_filter_list, join_words_filter_list.
  - intros k Hk. unfold included. rewrite Hreq.
    rewrite shape_nonempty by by apply join_words_truthy.
    rewrite split_join_words by done.
    destruct (shape_of_has (JsString.includes ws "name")
                (JsString.includes ws "removed") (JsString.includes ws "apps"))
      as (Hn & Hr & Ha & _).
    apply list_elem_of_In in Hk. simpl in Hk.
    destruct Hk as [<-|[<-|[<-|[]]]].
    + rewrite Hn. apply includes_elem.
    + rewrite Hr. apply includes_elem.
    + rewrite Ha. apply includes_elem.
Qed.

End FilterLists.

Section BundleUrl.
Import Regex.

Lemma lang_cat_iff r1 r2 s :
  lang (Cat r1 r2) s ↔ ∃ s1 s2, s = s1 +:+ s2 ∧ lang r1 s1 ∧ lang r2 s2.
Proof.
  split.
  - intros H. inversion H; subst. eauto.
  - intros (s1 & s2 & -> & H1 & H2). by constructor.
Qed.

Lemma lang_star_any s : lang (Star AnyChar) s.
Proof.
  induction s as [|a s IH]; [constructor|].
  change (String a s) with (String a "" +:+ s). constructor; [constructor|done].
Qed.

Lemma lang_dot_iff s :
  lang Dot s ↔ ∃ a, s = String a "" ∧ line_terminator a = false.
Proof.
  split.
  - intros H. inversion H; subst. eauto.
  - intros (a & -> & Ha). by constructor.
Qed.

Lemma lang_star_dot s :
  lang (Star Dot) s ↔
  JsString.all_chars (λ a, negb (line_terminator a)) s = true.
Proof.
  split.
  - intros H. remember (Star Dot) as r eqn:Hr.
    induction H; try discriminate; [done|]. injection Hr as ->.
    inversion H; subst. rewrite append_cons, append_nil_l.
    cbn [JsString.all_chars]. rewrite IHlang2 by done.
    by rewrite andb_true_r, negb_true_iff.
  - induction s as [|a s IH]; [constructor|]. cbn [JsString.all_chars].
    intros [Ha Hs]%andb_true_iff. apply negb_true_iff in Ha.
    change (String a s) with (String a "" +:+ s).
    constructor; [by constructor|by apply IH].
Qed.

(** X12. When [fetch] takes the bundle for still served: [removed] is
    false exactly when the final URL contains "store", any character,
    "steampowered", any character, "com", then any characters of one line,
    then "/bundle/" followed by the digits of the identifier. Whatever
    comes before and after is free, so the page of a bundle whose
    identifier merely starts with the same digits counts too. *)
Theorem removed_by_final_url bundleId resp :
  page_removed bundleId resp = false ↔
  ∃ before c1 c2 between after,
    url resp
    = before +:+ "store" +:+ String c1 ("steampowered" +:+ String c2
        ("com" +:+ between +:+ "/bundle/" +:+ JsString.of_Z bundleId +:+ after))
    ∧ line_terminator c1 = false ∧ line_terminator c2 = false
    ∧ JsString.all_chars (λ a, negb (line_terminator a)) between = true.
Proof.
  unfold page_removed. rewrite negb_false_iff. unfold search.
  rewrite full_match_lang. unfold bundle_url_regex.
  rewrite lang_cat_iff.
  split.
  - intros (before & s & -> & _ & Hs).
    apply lang_cat_iff in Hs as (m & after & -> & Hm & _).
    apply lang_cat_iff in Hm as (s1 & r1 & -> & H1 & Hm).
    apply lang_lit in H1 as ->.
    apply lang_cat_iff in Hm as (s2 & r2 & -> & H2 & Hm).
    apply lang_dot_iff in H2 as (c1 & -> & Hc1).
    apply lang_cat_iff in Hm as (s3 & r3 & -> & H3 & Hm).
    apply lang_lit in H3 as ->.
    apply lang_cat_iff in Hm as (s4 & r4 & -> & H4 & Hm).
    apply lang_dot_iff in H4 as (c2 & -> & Hc2).
    apply lang_cat_iff in Hm as (s5 & r5 & -> & H5 & Hm).
    apply lang_lit in H5 as ->.
    apply lang_cat_iff in Hm as (between & r6 & -> & H6 & Hm).
    apply lang_star_dot in H6.
    apply lang_cat_iff in Hm as (s7 & s8 & -> & H7 & H8).
    apply lang_lit in H7 as ->. apply lang_lit in H8 as ->.
    exists before, c1, c2, between, after. split_and!; try done.
    repeat first [rewrite append_assoc | rewrite append_cons
                 | rewrite append_nil_l]. reflexivity.
  - intros (before & c1 & c2 & between & after & -> & Hc1 & Hc2 & Hb).
    exists before, ("store" +:+ String c1 ("steampowered" +:+ String c2
        ("com" +:+ between +:+ "/bundle/" +:+ JsString.of_Z bundleId +:+ after))).
    split; [done|]. split; [apply lang_star_any|].
    apply lang_cat_iff.
    exists ("store" +:+ String c1 ("steampowered" +:+ String c2
        ("com" +:+ between +:+ "/bundle/" +:+ JsString.of_Z bundleId))), after.
    split.
    { repeat first [rewrite append_assoc | rewrite append_cons
                   | rewrite append_nil_l]. reflexivity. }
    split; [|apply lang_star_any].
    apply lang_cat_iff.
    exists "store". eexists. split; [reflexivity|]. split; [by apply lang_lit|].
    apply lang_cat_iff.
    exists (String c1 ""). eexists. split; [reflexivity|].
    split; [apply lang_dot_iff; eauto|].
    apply lang_cat_iff.
    exists "steampowered". eexists. split; [reflexivity|]. split; [by apply lang_lit|].
    apply lang_cat_iff.
    exists (String c2 ""). eexists. split; [reflexivity|].
    split; [apply lang_dot_iff; eauto|].
    apply lang_cat_iff.
    exists "com". eexists. split; [reflexivity|]. split; [by apply lang_lit|].
    apply lang_cat_iff.
    exists between. eexists. split; [reflexivity|]. split; [by apply lang_star_dot|].
    apply lang_cat_iff.
    exists "/bundle/". eexists. split; [reflexivity|]. split; by apply lang_lit.
Qed.

End BundleUrl.

Section FetchThenGet.

Variable default_removed : bool.
Variable default_last_update : Z.
Variable formatDate : Z → bool → string.
Variable upstream : string → response.

Local Abbreviation get_outcome_ :=
  (get_outcome default_removed default_last_update formatDate).
Local Abbreviation fetch_outcome_ :=
  (fetch_outcome default_removed default_last_update upstream).
Local Abbreviation committed_lookup_ :=
  (get_committed_lookup default_removed default_last_update formatDate).

(** X14. A bundle refreshed from a usable page is served by the next
    [get]: after a successful [fetch] that scraped a non-empty title, a
    [get] that requests the bundle returns a projection for it, and that
    projection, when it has the field, says [removed = false]. *)
Theorem get_serves_fetched_bundle bundleId now req ids now' c c1 bundles c2
    page title :
  txn c = None →
  fetch default_removed default_last_update upstream
      bundleId now c = (inr (), c1) →
  html (upstream (store_url bundleId)) = Some page →
  page_name bundleId (upstream (store_url bundleId)) page = Some title →
  truthy title = true →
  get default_removed default_last_update formatDate
      req ids now' c1 = (inr bundles, c2) →
  bundleId ∈ ids →
  ∃ bundle, bundle ∈ bundles
    ∧ Projection.bundle_id bundle = bundleId
    ∧ (included req "removed" = true → Projection.removed bundle = Some false).
Proof.
  intros Hidle Hfetch Hpage Hname Htitle Hget Hin.
  pose proof (fetch_outcome_ bundleId now c Hidle) as Hf. cbn zeta in Hf.
  rewrite Hfetch, Hpage in Hf. destruct Hf as (page' & [= <-] & _ & Hc1 & Hidle1).
  set (resp := upstream (store_url bundleId)) in *.
  destruct (fetch_tables_children bundleId now resp page (committed c))
    as [Hn _].
  assert (Hrm : page_removed bundleId resp = false).
  { unfold page_name, page_usable in Hname.
    destruct (bool_decide _); [|done].
    destruct (page_removed bundleId resp); [done|done]. }
  assert (Hsel : bundleId ∈ row_bundle_id <$> selected (committed c1) req ids).
  { apply selected_ids. rewrite Hc1. split_and!; [done| |intros _].
    - unfold fetch_tables. cbn [games__bundle]. rewrite lookup_insert_eq. by eexists.
    - rewrite Hn, Hname, Htitle, decide_True by done.
      by destruct (games__bundle_name (committed c) !! bundleId). }
  apply list_elem_of_fmap in Hsel as (row & Hid & Hrow).
  pose proof (get_outcome_ req ids now' c1 Hidle1) as Hg. rewrite Hget in Hg.
  destruct Hg as (_ & _ & -> & _).
  exists (project formatDate (shape (params_filters req)).2
            (get_appMap (committed c1) req ids) now' row).
  split; [by apply list_elem_of_fmap_2|]. split; [done|].
  intros Hinc. apply elem_of_selected in Hrow as (r & Hr & _ & _ & Hrem & _).
  rewrite <- Hid, Hc1 in Hr. unfold fetch_tables in Hr. cbn [games__bundle] in Hr.
  rewrite lookup_insert_eq in Hr. injection Hr as <-.
  rewrite Hinc in Hrem. unfold included in Hinc.
  cbn [project Projection.removed]. rewrite Hinc, Hrem. cbn. by rewrite Hrm.
Qed.

(** X15. A refreshed bundle that has no name row is queued again at once:
    when [fetch] succeeds without leaving a name row for the bundle (the
    page was redirected, had no header or an empty title, and no name was
    stored before), a following [get] that includes the name field and
    requests the bundle returns no projection for it and sets its
    [queued_for_update] back to true. *)
Theorem get_requeues_fetched_nameless bundleId now req ids now' c c1 bundles c2
    page :
  txn c = None →
  fetch default_removed default_last_update upstream
      bundleId now c = (inr (), c1) →
  html (upstream (store_url bundleId)) = Some page →
  truthy_opt (page_name bundleId (upstream (store_url bundleId)) page) = false →
  games__bundle_name (committed c) !! bundleId = None →
  get default_removed default_last_update formatDate
      req ids now' c1 = (inr bundles, c2) →
  included req "name" = true → bundleId ∈ ids →
  (∀ bundle, bundle ∈ bundles → Projection.bundle_id bundle ≠ bundleId)
  ∧ games__bundle (committed c2) !! bundleId
    = Some (BundleRecord
              (page_removed bundleId (upstream (store_url bundleId))) now true).
Proof.
  intros Hidle Hfetch Hpage Hname Hold Hget Hinc Hin.
  pose proof (fetch_outcome_ bundleId now c Hidle) as Hf. cbn zeta in Hf.
  rewrite Hfetch, Hpage in Hf. destruct Hf as (page' & [= <-] & _ & Hc1 & Hidle1).
  set (resp := upstream (store_url bundleId)) in *.
  destruct (fetch_tables_children bundleId now resp page (committed c))
    as [Hn _].
  assert (Hnone : games__bundle_name (committed c1) !! bundleId = None).
  { rewrite Hc1, Hn, Hold, decide_True by done.
    destruct (page_name bundleId resp page) as [n|]; [|done].
    cbn in Hname. by rewrite Hname. }
  assert (Hnsel : bundleId ∉ row_bundle_id <$> selected (committed c1) req ids).
  { intros Hsel. apply selected_ids in Hsel as (_ & _ & Hnm).
    destruct (Hnm Hinc) as [? ?]. congruence. }
  split.
  - intros bundle Hb Hid.
    pose proof (get_outcome_ req ids now' c1 Hidle1) as Hg. rewrite Hget in Hg.
    destruct Hg as (_ & _ & Hbs & _). rewrite Hbs in Hb.
    apply list_elem_of_fmap in Hb as (row & -> & Hrow).
    apply Hnsel. rewrite <- Hid. cbn [project Projection.bundle_id].
    by apply list_elem_of_fmap_2.
  - rewrite (committed_lookup_ req ids now' c1 bundles c2) by done.
    rewrite decide_True by by apply to_queue_not_found.
    rewrite Hc1. unfold fetch_tables. cbn [games__bundle].
    by rewrite lookup_insert_eq.
Qed.

End FetchThenGet.

(** ** The further properties at sample inputs *)

Lemma get_fields_follow_filters_witness :
  txn sample_connection = None
  ∧ ∃ bundles c',
      get false 0 sample_formatDate (filters_req "apps") [1; 3]
        two_hours_later sample_connection = (inr bundles, c')
      ∧ Forall (λ bundle,
           (is_Some (Projection.name bundle)
            ↔ included (filters_req "apps") "name" = true)
           ∧ (is_Some (Projection.removed bundle)
              ↔ included (filters_req "apps") "removed" = true)
           ∧ (is_Some (Projection.apps bundle)
              ↔ included (filters_req "apps") "apps" = true))
          bundles.
Proof.
  split; [reflexivity|].
  pose (res := get false 0 sample_formatDate (filters_req "apps") [1; 3]
                 two_hours_later sample_connection).
  pose (bundles := match res.1 with inr bs => bs | inl _ => [] end).
  assert (H : res = (inr bundles, res.2)) by (vm_compute; reflexivity).
  exists bundles, res.2. split; [exact H|].
  exact (get_fields_follow_filters false 0 sample_formatDate
           (filters_req "apps") [1; 3] two_hours_later sample_connection
           bundles res.2 eq_refl H).
Defined.

Lemma get_projection_shows_store_witness :
  txn sample_connection = None
  ∧ ∃ bundles c',
      get false 0 sample_formatDate no_filters [1; 2; 5]
        two_hours_later sample_connection = (inr bundles, c')
      ∧ Forall (λ bundle,
           Projection.bundle_id bundle ∈ [1; 2; 5]
           ∧ ∃ r, games__bundle sample_tables !! Projection.bundle_id bundle
                  = Some r
             ∧ Projection.last_update bundle
               = sample_formatDate (last_update r * 1000) true
             ∧ (included no_filters "removed" = true →
                Projection.removed bundle = Some (removed r))
             ∧ (included no_filters "name" = true →
                ∃ nm, games__bundle_name sample_tables
                        !! Projection.bundle_id bundle = Some nm
                      ∧ Projection.name bundle = Some (Some nm)))
          bundles.
Proof.
  split; [reflexivity|].
  pose (res := get false 0 sample_formatDate no_filters [1; 2; 5]
                 two_hours_later sample_connection).
  pose (bundles := match res.1 with inr bs => bs | inl _ => [] end).
  assert (H : res = (inr bundles, res.2)) by (vm_compute; reflexivity).
  exists bundles, res.2. split; [exact H|].
  exact (get_projection_shows_store false 0 sample_formatDate no_filters
           [1; 2; 5] two_hours_later sample_connection bundles res.2
           eq_refl H).
Defined.

Lemma get_reports_stored_flag_witness :
  txn sample_connection = None
  ∧ ∃ bundles c',
      get false 0 sample_formatDate no_filters [1; 4]
        (1000000 + 7 * 86400) sample_connection = (inr bundles, c')
      ∧ Forall (λ bundle,
           ∃ r, games__bundle (committed c') !! Projection.bundle_id bundle
                = Some r
                ∧ Projection.queued_for_update bundle = queued_for_update r)
          bundles.
Proof.
  split; [reflexivity|].
  pose (res := get false 0 sample_formatDate no_filters [1; 4]
                 (1000000 + 7 * 86400) sample_connection).
  pose (bundles := match res.1 with inr bs => bs | inl _ => [] end).
  assert (H : res = (inr bundles, res.2)) by (vm_compute; reflexivity).
  exists bundles, res.2. split; [exact H|].
  exact (get_reports_stored_flag false 0 sample_formatDate no_filters
           [1; 4] (1000000 + 7 * 86400) sample_connection bundles res.2
           eq_refl H).
Defined.

Lemma get_creates_requested_rows_witness :
  txn sample_connection = None
  ∧ ∃ bundles c',
      get false 0 sample_formatDate no_filters [1; 2; 5]
        two_hours_later sample_connection = (inr bundles, c')
      ∧ dom (games__bundle (committed c'))
        = dom (games__bundle sample_tables) ∪ list_to_set [1; 2; 5].
Proof.
  split; [reflexivity|].
  pose (res := get false 0 sample_formatDate no_filters [1; 2; 5]
                 two_hours_later sample_connection).
  pose (bundles := match res.1 with inr bs => bs | inl _ => [] end).
  assert (H : res = (inr bundles, res.2)) by (vm_compute; reflexivity).
  exists bundles, res.2. split; [exact H|].
  exact (get_creates_requested_rows false 0 sample_formatDate no_filters
           [1; 2; 5] two_hours_later sample_connection bundles res.2
           eq_refl H).
Defined.

Lemma get_leaves_unrequested_rows_witness :
  txn sample_connection = None
  ∧ ∃ r c',
      get false 0 sample_formatDate no_filters [1; 2; 5] two_hours_later
        sample_connection = (r, c')
      ∧ ∀ id, id ∉ [1; 2; 5] →
          games__bundle (committed c') !! id = games__bundle sample_tables !! id.
Proof.
  split; [reflexivity|].
  pose (res := get false 0 sample_formatDate no_filters [1; 2; 5]
                 two_hours_later sample_connection).
  exists res.1, res.2. split; [apply surjective_pairing|].
  exact (get_leaves_unrequested_rows false 0 sample_formatDate no_filters
           [1; 2; 5] two_hours_later sample_connection res.1 res.2
           eq_refl (surjective_pairing res)).
Defined.

Lemma get_no_ids_fails_witness :
  txn sample_connection = None
  ∧ ∃ e c',
      get false 0 sample_formatDate no_filters [] two_hours_later
        sample_connection = (inl e, c')
      ∧ committed c' = sample_tables.
Proof.
  split; [reflexivity|].
  exact (get_no_ids_fails false 0 sample_formatDate no_filters
           two_hours_later sample_connection eq_refl).
Defined.

Lemma get_again_changes_nothing_witness :
  txn sample_connection = None
  ∧ ∃ bundles1 c1 bundles2 c2,
      get false 0 sample_formatDate no_filters [1; 2; 5] two_hours_later
        sample_connection = (inr bundles1, c1)
      ∧ get false 0 sample_formatDate no_filters [1; 2; 5] two_hours_later c1
        = (inr bundles2, c2)
      ∧ committed c2 = committed c1
      ∧ ∀ bundle, bundle ∈ bundles1 → bundle ∈ bundles2.
Proof.
  split; [reflexivity|].
  pose (r1 := get false 0 sample_formatDate no_filters [1; 2; 5]
                two_hours_later sample_connection).
  pose (bundles1 := match r1.1 with inr bs => bs | inl _ => [] end).
  assert (H1 : r1 = (inr bundles1, r1.2)) by (vm_compute; reflexivity).
  pose (r2 := get false 0 sample_formatDate no_filters [1; 2; 5]
                two_hours_later r1.2).
  pose (bundles2 := match r2.1 with inr bs => bs | inl _ => [] end).
  assert (H2 : r2 = (inr bundles2, r2.2)) by (vm_compute; reflexivity).
  exists bundles1, r1.2, bundles2, r2.2.
  split; [exact H1|]. split; [exact H2|].
  exact (get_again_changes_nothing false 0 sample_formatDate no_filters
           [1; 2; 5] two_hours_later sample_connection bundles1 r1.2
           bundles2 r2.2 eq_refl H1 H2).
Defined.

Lemma get_ids_as_a_set_witness :
  txn sample_connection = None
  ∧ (∀ id : Z, id ∈ [1; 2; 2] ↔ id ∈ [2; 1])
  ∧ ∃ bundles1 c1 bundles2 c2,
      get false 0 sample_formatDate (filters_req "removed") [1; 2; 2]
        two_hours_later sample_connection = (inr bundles1, c1)
      ∧ get false 0 sample_formatDate (filters_req "removed") [2; 1]
          two_hours_later sample_connection = (inr bundles2, c2)
      ∧ bundles1 = bundles2 ∧ committed c1 = committed c2.
Proof.
  assert (Hsame : ∀ id : Z, id ∈ [1; 2; 2] ↔ id ∈ [2; 1]).
  { intros id. rewrite !elem_of_cons, !elem_of_nil. tauto. }
  split; [reflexivity|]. split; [exact Hsame|].
  pose (r1 := get false 0 sample_formatDate (filters_req "removed") [1; 2; 2]
                two_hours_later sample_connection).
  pose (bundles1 := match r1.1 with inr bs => bs | inl _ => [] end).
  assert (H1 : r1 = (inr bundles1, r1.2)) by (vm_compute; reflexivity).
  pose (r2 := get false 0 sample_formatDate (filters_req "removed") [2; 1]
                two_hours_later sample_connection).
  pose (bundles2 := match r2.1 with inr bs => bs | inl _ => [] end).
  assert (H2 : r2 = (inr bundles2, r2.2)) by (vm_compute; reflexivity).
  exists bundles1, r1.2, bundles2, r2.2.
  split; [exact H1|]. split; [exact H2|].
  exact (get_ids_as_a_set false 0 sample_formatDate (filters_req "removed")
           [1; 2; 2] [2; 1] two_hours_later sample_connection bundles1 r1.2
           bundles2 r2.2 eq_refl Hsame H1 H2).
Defined.

Lemma filters_include_listed_words_witness :
  ["apps"; "name"] ≠ []
  ∧ (∀ w, w ∈ ["apps"; "name"] → w ∈ columnKeys)
  ∧ params_filters (filters_req "apps,name")
    = JsString.join "," ["apps"; "name"]
  ∧ valid_filters (filters_req "apps,name")
  ∧ ∀ k, k ∈ columnKeys →
      (included (filters_req "apps,name") k = true ↔ k ∈ ["apps"; "name"]).
Proof.
  assert (Hwords : ∀ w, w ∈ ["apps"; "name"] → w ∈ columnKeys).
  { intros w. rewrite !elem_of_cons, elem_of_nil.
    intros [->|[->|[]]]; apply (bool_decide_unpack _); vm_compute; exact I. }
  split; [discriminate|]. split; [exact Hwords|]. split; [reflexivity|].
  exact (filters_include_listed_words (filters_req "apps,name")
           ["apps"; "name"] ltac:(discriminate) Hwords eq_refl).
Defined.

Lemma fetch_success_stores_witness :
  txn sample_connection = None
  ∧ ∃ c',
      fetch false 0 bundle_page 42 2000000 sample_connection = (inr (), c')
      ∧ games__bundle (committed c')
        = <[42 := BundleRecord false 2000000 false]> (games__bundle sample_tables)
      ∧ games__bundle_name (committed c') !! 42 = Some "Some Bundle".
Proof.
  split; [reflexivity|].
  pose (r1 := fetch false 0 bundle_page 42 2000000 sample_connection).
  assert (H1 : r1 = (inr (), r1.2)) by (vm_compute; reflexivity).
  exists r1.2. split; [exact H1|].
  destruct (fetch_success_stores false 0 bundle_page 42 2000000
              sample_connection r1.2 eq_refl H1)
    as (page & Hpage & Hrow & Hname & _).
  split; [exact Hrow|].
  injection Hpage as <-. exact Hname.
Defined.

Lemma fetch_only_adds_witness :
  txn (Connection stale_tables None [] []) = None
  ∧ ∃ r c',
      fetch false 0 redirected 42 2000000 (Connection stale_tables None [] [])
      = (r, c')
      ∧ games__bundle_name (committed c') !! 42 = Some "Old Bundle"
      ∧ (42, 7) ∈ games__bundle_app (committed c').
Proof.
  split; [reflexivity|].
  pose (res := fetch false 0 redirected 42 2000000
                 (Connection stale_tables None [] [])).
  exists res.1, res.2. split; [apply surjective_pairing|].
  destruct (fetch_only_adds false 0 redirected 42 2000000
              (Connection stale_tables None [] []) res.1 res.2
              eq_refl (surjective_pairing res))
    as (Hnames & Happs & _).
  split; [apply Hnames; reflexivity|].
  apply Happs. vm_compute. reflexivity.
Defined.

Lemma get_soon_after_fetch_witness :
  txn sample_connection = None
  ∧ 2000060 - 2000000 ≤ 86400
  ∧ 42 ∈ [42]
  ∧ ∃ c1 bundles c2,
      fetch false 0 bundle_page 42 2000000 sample_connection = (inr (), c1)
      ∧ get false 0 sample_formatDate no_filters [42] 2000060 c1
        = (inr bundles, c2)
      ∧ ∀ bundle, bundle ∈ bundles → Projection.bundle_id bundle = 42 →
          Projection.queued_for_update bundle = false
          ∧ games__bundle (committed c2) !! 42
            = Some (BundleRecord
                      (page_removed 42 (bundle_page (store_url 42)))
                      2000000 false).
Proof.
  split; [reflexivity|]. split; [lia|]. split; [apply list_elem_of_here|].
  pose (r1 := fetch false 0 bundle_page 42 2000000 sample_connection).
  assert (H1 : r1 = (inr (), r1.2)) by (vm_compute; reflexivity).
  pose (r2 := get false 0 sample_formatDate no_filters [42] 2000060 r1.2).
  pose (bundles := match r2.1 with inr bs => bs | inl _ => [] end).
  assert (H2 : r2 = (inr bundles, r2.2)) by (vm_compute; reflexivity).
  exists r1.2, bundles, r2.2. split; [exact H1|]. split; [exact H2|].
  exact (proj1 (proj2
           (get_soon_after_fetch false 0 sample_formatDate bundle_page
              42 2000000 no_filters [42] 2000060 sample_connection r1.2
              bundles r2.2 eq_refl H1 H2 ltac:(lia) (list_elem_of_here 42 [])))).
Defined.

Lemma get_serves_fetched_bundle_witness :
  txn sample_connection = None
  ∧ html (bundle_page (store_url 42))
    = Some (Document (Some "Some Bundle") ["10"; "12"])
  ∧ page_name 42 (bundle_page (store_url 42))
      (Document (Some "Some Bundle") ["10"; "12"]) = Some "Some Bundle"
  ∧ truthy "Some Bundle" = true
  ∧ 42 ∈ [42; 1]
  ∧ ∃ c1 bundles c2,
      fetch false 0 bundle_page 42 2000000 sample_connection = (inr (), c1)
      ∧ get false 0 sample_formatDate no_filters [42; 1] 2000060 c1
        = (inr bundles, c2)
      ∧ ∃ bundle, bundle ∈ bundles
          ∧ Projection.bundle_id bundle = 42
          ∧ (included no_filters "removed" = true →
             Projection.removed bundle = Some false).
Proof.
  split; [reflexivity|]. split; [reflexivity|]. split; [reflexivity|].
  split; [reflexivity|]. split; [apply list_elem_of_here|].
  pose (r1 := fetch false 0 bundle_page 42 2000000 sample_connection).
  assert (H1 : r1 = (inr (), r1.2)) by (vm_compute; reflexivity).
  pose (r2 := get false 0 sample_formatDate no_filters [42; 1] 2000060 r1.2).
  pose (bundles := match r2.1 with inr bs => bs | inl _ => [] end).
  assert (H2 : r2 = (inr bundles, r2.2)) by (vm_compute; reflexivity).
  exists r1.2, bundles, r2.2. split; [exact H1|]. split; [exact H2|].
  exact (get_serves_fetched_bundle false 0 sample_formatDate bundle_page
           42 2000000 no_filters [42; 1] 2000060 sample_connection r1.2
           bundles r2.2 (Document (Some "Some Bundle") ["10"; "12"])
           "Some Bundle" eq_refl H1 eq_refl eq_refl eq_refl H2
           (list_elem_of_here 42 [1])).
Defined.

Lemma get_requeues_fetched_nameless_witness :
  txn sample_connection = None
  ∧ html (redirected (store_url 42))
    = Some (Document (Some "Welcome to Steam") [])
  ∧ truthy_opt (page_name 42 (redirected (store_url 42))
                  (Document (Some "Welcome to Steam") [])) = false
  ∧ games__bundle_name sample_tables !! 42 = None
  ∧ included no_filters "name" = true
  ∧ 42 ∈ [42; 1]
  ∧ ∃ c1 bundles c2,
      fetch false 0 redirected 42 2000000 sample_connection = (inr (), c1)
      ∧ get false 0 sample_formatDate no_filters [42; 1] 2000060 c1
        = (inr bundles, c2)
      ∧ (∀ bundle, bundle ∈ bundles → Projection.bundle_id bundle ≠ 42)
      ∧ games__bundle (committed c2) !! 42
        = Some (BundleRecord true 2000000 true).
Proof.
  split; [reflexivity|]. split; [reflexivity|]. split; [reflexivity|].
  split; [reflexivity|]. split; [reflexivity|].
  split; [apply list_elem_of_here|].
  pose (r1 := fetch false 0 redirected 42 2000000 sample_connection).
  assert (H1 : r1 = (inr (), r1.2)) by (vm_compute; reflexivity).
  pose (r2 := get false 0 sample_formatDate no_filters [42; 1] 2000060 r1.2).
  pose (bundles := match r2.1 with inr bs => bs | inl _ => [] end).
  assert (H2 : r2 = (inr bundles, r2.2)) by (vm_compute; reflexivity).
  exists r1.2, bundles, r2.2. split; [exact H1|]. split; [exact H2|].
  exact (get_requeues_fetched_nameless false 0 sample_formatDate redirected
           42 2000000 no_filters [42; 1] 2000060 sample_connection r1.2
           bundles r2.2 (Document (Some "Welcome to Steam") [])
           eq_refl H1 eq_refl eq_refl eq_refl H2 eq_refl
           (list_elem_of_here 42 [1])).
Defined.

(** The address of a bundle whose identifier starts with the same digits
    passes for the page of bundle 42. *)
Example longer_identifier_passes :
  page_removed 42
    (Response None "https://store.steampowered.com/bundle/4200/Other/") = false.
Proof. vm_compute. reflexivity. Qed.
